(** * Lorenz attractor visualizer: solver, orbit camera and update loop

    A shallow embedding of [include/lorenz_solver.h], [src/camera.cpp] and the
    simulation-update part of the main loop of [src/main.cpp].

    The C++ type [float] is IEEE-754 binary32.  Its values are modelled by the
    Standard Library's [spec_float] and its arithmetic by the [SpecFloat]
    operations at precision 24 and maximal exponent 128 (round to nearest,
    ties to even; one NaN, no payload), so that every operation computes. *)

From Stdlib Require Import ZArith NArith List Bool Lia.
From Stdlib Require Import Floats.SpecFloat.
Import ListNotations.

Open Scope Z_scope.

(** ** binary32 arithmetic *)

Definition float : Set := spec_float.

Module F32.

Definition prec : Z := 24.
Definition emax : Z := 128.

(** A C++ [float] always holds a canonical binary32 value. *)
Definition valid (x : float) : bool := valid_binary prec emax x.

Definition add : float -> float -> float := SFadd prec emax.
Definition sub : float -> float -> float := SFsub prec emax.
Definition mul : float -> float -> float := SFmul prec emax.
Definition div : float -> float -> float := SFdiv prec emax.

(** [a < b] and [a <= b] of C++; both are false when an operand is NaN. *)
Definition ltb : float -> float -> bool := SFltb.
Definition leb : float -> float -> bool := SFleb.

Definition is_nan (x : float) : bool :=
  match x with S754_nan => true | _ => false end.

Definition is_finite (x : float) : bool :=
  match x with S754_zero _ | S754_finite _ _ _ => true | _ => false end.

(** An integer-valued literal such as [360.0f]. *)
Definition of_Z (n : Z) : float := binary_normalize prec emax n 0 false.

(** A decimal literal [p/q] such as [0.01f]: the binary32 value nearest to
    the rational, which is what the correctly rounded quotient of the two
    (exactly representable) integers is. *)
Definition of_ratio (p q : Z) : float := div (of_Z p) (of_Z q).

End F32.

Declare Scope f32_scope.
Delimit Scope f32_scope with f32.
Infix "+" := F32.add : f32_scope.
Infix "-" := F32.sub : f32_scope.
Infix "*" := F32.mul : f32_scope.
Infix "/" := F32.div : f32_scope.
Infix "<?" := F32.ltb : f32_scope.
Infix "<=?" := F32.leb : f32_scope.

(** ** glm::vec3 *)

Record vec3 : Set := Vec3 { vx : float; vy : float; vz : float }.

Module Glm.
Local Open Scope f32_scope.

(** [a + b], [a - b] on vectors: componentwise. *)
Definition vadd (a b : vec3) : vec3 :=
  Vec3 (vx a + vx b) (vy a + vy b) (vz a + vz b).
Definition vsub (a b : vec3) : vec3 :=
  Vec3 (vx a - vx b) (vy a - vy b) (vz a - vz b).

(** [s * v] (scalar on the left) and [v * s] (scalar on the right). *)
Definition smul (s : float) (v : vec3) : vec3 :=
  Vec3 (s * vx v) (s * vy v) (s * vz v).
Definition vmuls (v : vec3) (s : float) : vec3 :=
  Vec3 (vx v * s) (vy v * s) (vz v * s).

Definition cross (a b : vec3) : vec3 :=
  Vec3 (vy a * vz b - vy b * vz a)
       (vz a * vx b - vz b * vx a)
       (vx a * vy b - vx b * vy a).

(** [glm::radians]: degrees times pi/180 rounded to binary32
    (bit pattern 0x3C8EFA35). *)
Definition radians (deg : float) : float :=
  deg * S754_finite false 9370165 (-29).

End Glm.

Declare Scope vec3_scope.
Delimit Scope vec3_scope with vec3.
Infix "+" := Glm.vadd : vec3_scope.
Infix "-" := Glm.vsub : vec3_scope.
Infix "*" := Glm.smul : vec3_scope.

(** ** LorenzSolver (include/lorenz_solver.h) *)

Module LorenzSolver.

Record t : Set := Build {
  sigma_ : float;
  rho_ : float;
  beta_ : float;
  state_ : vec3;
  trajectory_ : list vec3
}.

(** The default member initialiser of [state_], also used by [reset]. *)
Definition seed : vec3 := Vec3 (F32.of_Z 0) (F32.of_Z 1) (F32.of_Z 0).

(** Constructor: the parameters are stored, [state_] takes its default
    and is pushed on the (empty) trajectory.  [reserve] changes capacity
    only. *)
Definition new (sigma rho beta : float) : t :=
  Build sigma rho beta seed [seed].

(** The constructor's default arguments [10.0f, 28.0f, 8.0f/3.0f]. *)
Definition default : t :=
  new (F32.of_Z 10) (F32.of_Z 28) (F32.div (F32.of_Z 8) (F32.of_Z 3)).

Definition setParameters (sigma rho beta : float) (s : t) : t :=
  Build sigma rho beta (state_ s) (trajectory_ s).

Definition setState (x y z : float) (s : t) : t :=
  let p := Vec3 x y z in
  Build (sigma_ s) (rho_ s) (beta_ s) p [p].

Definition derivatives (s : t) (state : vec3) : vec3 :=
  Vec3 (sigma_ s * (vy state - vx state))%f32
       (vx state * (rho_ s - vz state) - vy state)%f32
       (vx state * vy state - beta_ s * vz state)%f32.

Definition step (dt : float) (s : t) : t :=
  let half := F32.of_ratio 1 2 in
  let two := F32.of_Z 2 in
  let k1 := derivatives s (state_ s) in
  let k2 := derivatives s (state_ s + (half * dt)%f32 * k1)%vec3 in
  let k3 := derivatives s (state_ s + (half * dt)%f32 * k2)%vec3 in
  let k4 := derivatives s (state_ s + dt * k3)%vec3 in
  let state' :=
    (state_ s + (dt / F32.of_Z 6)%f32 * (k1 + two * k2 + two * k3 + k4))%vec3 in
  Build (sigma_ s) (rho_ s) (beta_ s) state' (trajectory_ s ++ [state']).

Definition getTrajectory (s : t) : list vec3 := trajectory_ s.

Definition getState (s : t) : vec3 := state_ s.

(** [trajectory_.size()], a [size_t]. *)
Definition size (s : t) : N := N.of_nat (length (trajectory_ s)).

(** [keep] is a [size_t].  [erase(begin(), begin() + (size() - keep))]
    removes the first [size() - keep] elements. *)
Definition clearOldest (keep : N) (s : t) : t :=
  if (keep <? size s)%N
  then Build (sigma_ s) (rho_ s) (beta_ s) (state_ s)
             (skipn (N.to_nat (size s - keep)) (trajectory_ s))
  else s.

Definition reset (s : t) : t :=
  Build (sigma_ s) (rho_ s) (beta_ s) seed [seed].

(** Sequences of calls on one solver object. *)
Inductive op : Set :=
| SetParameters (sigma rho beta : float)
| SetState (x y z : float)
| Step (dt : float)
| ClearOldest (keep : N)
| Reset.

Definition apply (s : t) (o : op) : t :=
  match o with
  | SetParameters sigma rho beta => setParameters sigma rho beta s
  | SetState x y z => setState x y z s
  | Step dt => step dt s
  | ClearOldest keep => clearOldest keep s
  | Reset => reset s
  end.

Definition run (ops : list op) (s : t) : t := fold_left apply ops s.

(** [trajectory_.back()], when there is one. *)
Fixpoint back (l : list vec3) : option vec3 :=
  match l with
  | [] => None
  | [p] => Some p
  | _ :: l' => back l'
  end.

(** The current position is the last recorded point. *)
Definition position_is_last (s : t) : Prop :=
  back (getTrajectory s) = Some (getState s).

(** A call that leaves at least one point in the buffer. *)
Definition keeps_a_point (o : op) : Prop :=
  match o with
  | ClearOldest keep => keep <> 0%N
  | _ => True
  end.

End LorenzSolver.

(** ** Camera (include/camera.h, src/camera.cpp) *)

(** Functions of the C and glm libraries that the camera calls ([cos] and
    [sin] at single precision, [glm::normalize]) and whose results no
    property below depends on. *)
Record MathLib : Set := {
  cosf : float -> float;
  sinf : float -> float;
  normalize : vec3 -> vec3
}.

Module Camera.

Record t : Set := Build {
  distance : float;
  yaw : float;
  pitch : float;
  target : vec3;
  fov : float;
  near_plane : float;
  far_plane : float;
  default_distance : float;
  default_yaw : float;
  default_pitch : float;
  default_target : vec3
}.

Definition new (dist yaw_deg pitch_deg : float) : t :=
  let origin := Vec3 (F32.of_Z 0) (F32.of_Z 0) (F32.of_Z 25) in
  Build dist yaw_deg pitch_deg origin
        (F32.of_Z 45) (F32.of_ratio 1 10) (F32.of_Z 1000)
        dist yaw_deg pitch_deg origin.

(** The constructor's default arguments [60.0f, 45.0f, 20.0f]. *)
Definition default : t := new (F32.of_Z 60) (F32.of_Z 45) (F32.of_Z 20).

(** [std::clamp(v, lo, hi)]: [(v < lo) ? lo : (hi < v) ? hi : v]. *)
Definition clamp (v lo hi : float) : float :=
  if (v <? lo)%f32 then lo else if (hi <? v)%f32 then hi else v.

Definition getPosition (L : MathLib) (c : t) : vec3 :=
  let yaw_rad := Glm.radians (yaw c) in
  let pitch_rad := Glm.radians (pitch c) in
  let offset :=
    Vec3 (distance c * cosf L pitch_rad * cosf L yaw_rad)%f32
         (distance c * cosf L pitch_rad * sinf L yaw_rad)%f32
         (distance c * sinf L pitch_rad)%f32 in
  (target c + offset)%vec3.

Definition set_pose (c : t) (d y p : float) (tg : vec3) : t :=
  Build d y p tg (fov c) (near_plane c) (far_plane c)
        (default_distance c) (default_yaw c) (default_pitch c)
        (default_target c).

Definition rotate (delta_yaw delta_pitch : float) (c : t) : t :=
  let yaw1 := (yaw c + delta_yaw)%f32 in
  let pitch1 := (pitch c + delta_pitch)%f32 in
  let pitch2 := clamp pitch1 (F32.of_Z (-89)) (F32.of_Z 89) in
  let yaw2 :=
    if (F32.of_Z 360 <? yaw1)%f32 then (yaw1 - F32.of_Z 360)%f32 else yaw1 in
  let yaw3 :=
    if (yaw2 <? F32.of_Z 0)%f32 then (yaw2 + F32.of_Z 360)%f32 else yaw2 in
  set_pose c (distance c) yaw3 pitch2 (target c).

Definition zoom (delta : float) (c : t) : t :=
  let distance1 := (distance c + delta)%f32 in
  set_pose c (clamp distance1 (F32.of_Z 5) (F32.of_Z 200))
           (yaw c) (pitch c) (target c).

Definition pan (L : MathLib) (delta_x delta_y : float) (c : t) : t :=
  let forward := normalize L (target c - getPosition L c)%vec3 in
  let right :=
    normalize L
      (Glm.cross forward (Vec3 (F32.of_Z 0) (F32.of_Z 0) (F32.of_Z 1))) in
  let up := Glm.cross right forward in
  let pan_speed := (distance c * F32.of_ratio 1 100)%f32 in
  let target1 :=
    (target c + Glm.vmuls (Glm.vmuls right delta_x) pan_speed)%vec3 in
  let target2 :=
    (target1 + Glm.vmuls (Glm.vmuls up delta_y) pan_speed)%vec3 in
  set_pose c (distance c) (yaw c) (pitch c) target2.

Definition reset (c : t) : t :=
  set_pose c (default_distance c) (default_yaw c) (default_pitch c)
           (default_target c).

(** The ranges of the pose: yaw in [0, 360), pitch in [-89, 89] and
    distance in [5, 200]. *)
Definition yaw_in_range (c : t) : bool :=
  (F32.of_Z 0 <=? yaw c)%f32 && (yaw c <? F32.of_Z 360)%f32.

Definition pitch_in_range (c : t) : bool :=
  (F32.of_Z (-89) <=? pitch c)%f32 && (pitch c <=? F32.of_Z 89)%f32.

Definition distance_in_range (c : t) : bool :=
  (F32.of_Z 5 <=? distance c)%f32 && (distance c <=? F32.of_Z 200)%f32.

(** Sequences of calls on one camera object. *)
Inductive op : Set :=
| Rotate (delta_yaw delta_pitch : float)
| Zoom (delta : float)
| Pan (delta_x delta_y : float)
| Reset.

Definition apply (L : MathLib) (c : t) (o : op) : t :=
  match o with
  | Rotate delta_yaw delta_pitch => rotate delta_yaw delta_pitch c
  | Zoom delta => zoom delta c
  | Pan delta_x delta_y => pan L delta_x delta_y c
  | Reset => reset c
  end.

Definition run (L : MathLib) (ops : list op) (c : t) : t :=
  fold_left (apply L) ops c.

(** A [rotate], [zoom] or [pan] call whose arguments are finite. *)
Definition finite_delta (o : op) : Prop :=
  match o with
  | Rotate delta_yaw delta_pitch =>
      F32.is_finite delta_yaw = true /\ F32.is_finite delta_pitch = true
  | Zoom delta => F32.is_finite delta = true
  | Pan delta_x delta_y =>
      F32.is_finite delta_x = true /\ F32.is_finite delta_y = true
  | Reset => False
  end.

(** [c'] has the projection settings and the stored defaults of [c]. *)
Definition same_settings (c c' : t) : Prop :=
  fov c' = fov c /\ near_plane c' = near_plane c /\ far_plane c' = far_plane c
  /\ default_distance c' = default_distance c
  /\ default_yaw c' = default_yaw c
  /\ default_pitch c' = default_pitch c
  /\ default_target c' = default_target c.

End Camera.

(** ** The simulation update of the main loop (src/main.cpp) *)

Module App.

(** The fields of [AppState] that the update reads; [int] as [Z]. *)
Record AppState : Set := {
  running : bool;
  steps_per_frame : Z;
  dt : float;
  max_points : Z
}.

(** [static_cast<size_t>(n)] of an [int], and the same implicit
    conversion at the call [clearOldest(g_state.max_points)]: the value
    modulo 2^64. *)
Definition size_t_of_int (n : Z) : N := Z.to_N (n mod 2 ^ 64).

(** One iteration of the [for] body: a step, then the size check. *)
Definition step_and_limit (g : AppState) (s : LorenzSolver.t)
  : LorenzSolver.t :=
  let s1 := LorenzSolver.step (dt g) s in
  if (size_t_of_int (max_points g) <? LorenzSolver.size s1)%N
  then LorenzSolver.clearOldest (size_t_of_int (max_points g)) s1
  else s1.

(** [for (int i = 0; i < steps_per_frame; ++i)]: no iteration when the
    count is zero or negative. *)
Definition update (g : AppState) (s : LorenzSolver.t) : LorenzSolver.t :=
  if running g
  then Nat.iter (Z.to_nat (steps_per_frame g)) (step_and_limit g) s
  else s.

(** [AppState]'s default member initialisers, and the solver that [main]
    constructs and seeds with [setState(0.0, 1.0, 0.0)]. *)
Definition g_state : AppState :=
  {| running := false; steps_per_frame := 1;
     dt := F32.of_ratio 1 100; max_points := 50000 |}.

Definition solver0 : LorenzSolver.t :=
  LorenzSolver.setState (F32.of_Z 0) (F32.of_Z 1) (F32.of_Z 0)
    (LorenzSolver.new (F32.of_Z 10) (F32.of_Z 28)
                      (F32.of_ratio 8 3)).

(** Two settings of the application state that the controls reach: running
    with twenty steps per frame; and paused with [max_points] lowered to
    1000, the least value of its slider. *)
Definition g_running : AppState :=
  {| running := true; steps_per_frame := 20;
     dt := dt g_state; max_points := max_points g_state |}.

Definition g_paused_lowered : AppState :=
  {| running := false; steps_per_frame := 20;
     dt := dt g_state; max_points := 1000 |}.

End App.

(** ** The integration step as the specification writes it *)

Module Spec.

(** f(s) = (sigma (s.y - s.x), s.x (rho - s.z) - s.y, s.x s.y - beta s.z) *)
Definition f (sigma rho beta : float) (s : vec3) : vec3 :=
  Vec3 (sigma * (vy s - vx s))%f32
       (vx s * (rho - vz s) - vy s)%f32
       (vx s * vy s - beta * vz s)%f32.

(** k1 = f(position), k2 = f(position + dt/2 k1),
    k3 = f(position + dt/2 k2), k4 = f(position + dt k3),
    position <- position + dt/6 (k1 + 2 k2 + 2 k3 + k4),
    with one triple of parameters for the four evaluations. *)
Definition rk4 (sigma rho beta dt : float) (position : vec3) : vec3 :=
  let two := F32.of_Z 2 in
  let six := F32.of_Z 6 in
  let k1 := f sigma rho beta position in
  let k2 := f sigma rho beta (position + (dt / two)%f32 * k1)%vec3 in
  let k3 := f sigma rho beta (position + (dt / two)%f32 * k2)%vec3 in
  let k4 := f sigma rho beta (position + dt * k3)%vec3 in
  (position + (dt / six)%f32 * (k1 + two * k2 + two * k3 + k4))%vec3.

End Spec.

(** ** Halving a mantissa *)

Module Halving.

Definition mrs (m : Z) (r : bool) : shr_record :=
  {| shr_m := m; shr_r := r; shr_s := false |}.

(** Quotient and round bit of a mantissa shifted right by one place. *)
Definition halve (m : positive) : shr_record :=
  match m with
  | xH => mrs 0 true
  | xO p => mrs (Zpos p) false
  | xI p => mrs (Zpos p) true
  end.

End Halving.

(** ** Auxiliary notions for the solver *)

Module Orbit.

(** The parameters a solver holds after a sequence of calls: those of the
    last [setParameters] among them, or the ones it started with. *)
Definition last_parameters (ops : list LorenzSolver.op)
    (init : float * float * float) : float * float * float :=
  fold_left
    (fun acc o =>
       match o with
       | LorenzSolver.SetParameters sigma rho beta => (sigma, rho, beta)
       | _ => acc
       end)
    ops init.

Definition parameters (s : LorenzSolver.t) : float * float * float :=
  (LorenzSolver.sigma_ s, LorenzSolver.rho_ s, LorenzSolver.beta_ s).

Definition nan3 : vec3 := Vec3 S754_nan S754_nan S754_nan.

(** Some component of the vector is NaN. *)
Definition has_nan (p : vec3) : bool :=
  F32.is_nan (vx p) || F32.is_nan (vy p) || F32.is_nan (vz p).

End Orbit.

(** ** Auxiliary notions for the camera *)

Module Pose.

(** The calls that can change the distance, and those that can change yaw
    and pitch. *)
Definition zoom_or_reset (o : Camera.op) : bool :=
  match o with Camera.Zoom _ | Camera.Reset => true | _ => false end.

Definition rotate_or_reset (o : Camera.op) : bool :=
  match o with Camera.Rotate _ _ | Camera.Reset => true | _ => false end.

(** A relative update: any call but [reset]. *)
Definition relative (o : Camera.op) : Prop :=
  match o with Camera.Reset => False | _ => True end.

(** A [rotate], [zoom] or [pan] call none of whose arguments is NaN
    (infinite ones are allowed). *)
Definition no_nan_delta (o : Camera.op) : Prop :=
  match o with
  | Camera.Rotate delta_yaw delta_pitch =>
      F32.is_nan delta_yaw = false /\ F32.is_nan delta_pitch = false
  | Camera.Zoom delta => F32.is_nan delta = false
  | Camera.Pan delta_x delta_y => True
  | Camera.Reset => False
  end.

End Pose.

(** A stand-in for the library functions, used where a closed example
    needs some [MathLib]. *)
Definition example_math : MathLib :=
  {| cosf := fun _ => F32.of_Z 1;
     sinf := fun _ => F32.of_Z 0;
     normalize := fun v => v |}.

(** ** binary64 arithmetic and the conversions between the two formats *)

Definition double : Set := spec_float.

Module F64.

Definition prec : Z := 53.
Definition emax : Z := 1024.

Definition sub : double -> double -> double := SFsub prec emax.
Definition mul : double -> double -> double := SFmul prec emax.
Definition opp : double -> double := SFopp.

Definition is_finite (x : double) : bool :=
  match x with S754_zero _ | S754_finite _ _ _ => true | _ => false end.

Definition of_Z (n : Z) : double := binary_normalize prec emax n 0 false.

(** The promotion of a [float] operand to [double]: the same number, with
    its mantissa brought to 53 digits. *)
Definition of_float (x : float) : double :=
  match x with
  | S754_finite s m e => binary_normalize prec emax (cond_Zopp s (Zpos m)) e s
  | _ => x
  end.

(** The conversion of a [double] argument to a [float] parameter: the
    nearest binary32 value, an infinity when the magnitude is too large. *)
Definition to_float (x : double) : float :=
  match x with
  | S754_finite s m e =>
      binary_normalize F32.prec F32.emax (cond_Zopp s (Zpos m)) e s
  | _ => x
  end.

End F64.

(** ** The input callbacks (src/main.cpp) *)

Module Input.

(** The GLFW constants that the callbacks compare with. *)
Record Glfw : Set := {
  PRESS : Z;
  MOUSE_BUTTON_LEFT : Z;
  MOUSE_BUTTON_RIGHT : Z;
  KEY_SPACE : Z;
  KEY_R : Z;
  KEY_ESCAPE : Z
}.

(** Their values in GLFW 3. *)
Definition glfw3 : Glfw :=
  {| PRESS := 1; MOUSE_BUTTON_LEFT := 0; MOUSE_BUTTON_RIGHT := 1;
     KEY_SPACE := 32; KEY_R := 82; KEY_ESCAPE := 256 |}.

(** The fields of [g_state] that the callbacks read or write, and the
    close flag of the window, which [key_callback] sets. *)
Record State : Set := Build {
  width : Z;
  height : Z;
  camera : Camera.t;
  last_mouse_x : double;
  last_mouse_y : double;
  left_mouse_down : bool;
  right_mouse_down : bool;
  first_mouse : bool;
  running : bool;
  should_close : bool
}.

(** [AppState]'s default member initialisers. *)
Definition g_state : State :=
  Build 1600 900 Camera.default (F64.of_Z 0) (F64.of_Z 0)
        false false true false false.

Definition framebuffer_size_callback (w h : Z) (st : State) : State :=
  Build w h (camera st) (last_mouse_x st) (last_mouse_y st)
        (left_mouse_down st) (right_mouse_down st) (first_mouse st)
        (running st) (should_close st).

Definition set_mouse (st : State) (left right first : bool) : State :=
  Build (width st) (height st) (camera st) (last_mouse_x st)
        (last_mouse_y st) left right first (running st) (should_close st).

(** [capture] is [io.WantCaptureMouse] in a build with ImGui, and false in
    a build without. *)
Definition mouse_button_callback (G : Glfw) (capture : bool)
    (button action : Z) (st : State) : State :=
  if capture then st
  else
    let st1 :=
      if button =? MOUSE_BUTTON_LEFT G
      then set_mouse st (action =? PRESS G) (right_mouse_down st)
                     (if action =? PRESS G then true else first_mouse st)
      else st in
    if button =? MOUSE_BUTTON_RIGHT G
    then set_mouse st1 (left_mouse_down st1) (action =? PRESS G)
                   (if action =? PRESS G then true else first_mouse st1)
    else st1.

Definition set_cursor (st : State) (c : Camera.t) (x y : double)
    (first : bool) : State :=
  Build (width st) (height st) c x y (left_mouse_down st)
        (right_mouse_down st) first (running st) (should_close st).

Definition cursor_position_callback (G : Glfw) (L : MathLib)
    (capture : bool) (xpos ypos : double) (st : State) : State :=
  if capture then st
  else if first_mouse st then set_cursor st (camera st) xpos ypos false
  else
    let dx := F64.sub xpos (last_mouse_x st) in
    let dy := F64.sub ypos (last_mouse_y st) in
    let k := F64.of_float (F32.of_ratio 3 10) in
    let c1 :=
      if left_mouse_down st
      then Camera.rotate (F64.to_float (F64.mul dx k))
                         (F64.to_float (F64.mul (F64.opp dy) k)) (camera st)
      else camera st in
    let c2 :=
      if right_mouse_down st
      then Camera.pan L (F64.to_float (F64.opp dx)) (F64.to_float dy) c1
      else c1 in
    set_cursor st c2 xpos ypos (first_mouse st).

Definition scroll_callback (capture : bool) (xoffset yoffset : double)
    (st : State) : State :=
  if capture then st
  else
    let delta :=
      F64.to_float (F64.mul (F64.opp yoffset) (F64.of_float (F32.of_Z 3))) in
    set_cursor st (Camera.zoom delta (camera st))
               (last_mouse_x st) (last_mouse_y st) (first_mouse st).

Definition set_flags (st : State) (c : Camera.t) (run close : bool) : State :=
  Build (width st) (height st) c (last_mouse_x st) (last_mouse_y st)
        (left_mouse_down st) (right_mouse_down st) (first_mouse st)
        run close.

(** The [switch] over the key, its case labels in the order of the source. *)
Definition key_callback (G : Glfw) (key action : Z) (st : State) : State :=
  if action =? PRESS G then
    if key =? KEY_SPACE G
    then set_flags st (camera st) (negb (running st)) (should_close st)
    else if key =? KEY_R G
    then set_flags st (Camera.reset (camera st)) (running st) (should_close st)
    else if key =? KEY_ESCAPE G
    then set_flags st (camera st) (running st) true
    else st
  else st.

(** The events that [glfwPollEvents] delivers.  A mouse event comes with
    the value [io.WantCaptureMouse] has when its callback runs. *)
Inductive event : Set :=
| FramebufferSize (w h : Z)
| MouseButton (capture : bool) (button action : Z)
| CursorPos (capture : bool) (xpos ypos : double)
| Scroll (capture : bool) (xoffset yoffset : double)
| Key (key action : Z).

Definition handle (G : Glfw) (L : MathLib) (st : State) (ev : event)
  : State :=
  match ev with
  | FramebufferSize w h => framebuffer_size_callback w h st
  | MouseButton capture button action =>
      mouse_button_callback G capture button action st
  | CursorPos capture xpos ypos =>
      cursor_position_callback G L capture xpos ypos st
  | Scroll capture xoffset yoffset =>
      scroll_callback capture xoffset yoffset st
  | Key key action => key_callback G key action st
  end.

Definition poll (G : Glfw) (L : MathLib) (evs : list event) (st : State)
  : State :=
  fold_left (handle G L) evs st.

(** The number of presses of the space bar among the events. *)
Definition space_presses (G : Glfw) (evs : list event) : nat :=
  length
    (filter
       (fun ev =>
          match ev with
          | Key key action => (action =? PRESS G) && (key =? KEY_SPACE G)
          | _ => false
          end)
       evs).

(** An event whose numbers are usable: cursor coordinates are finite and
    a scroll offset is not NaN. *)
Definition usable (ev : event) : Prop :=
  match ev with
  | CursorPos _ xpos ypos =>
      F64.is_finite xpos = true /\ F64.is_finite ypos = true
  | Scroll _ _ yoffset => F32.is_nan yoffset = false
  | _ => True
  end.

(** The state is sound: the pitch and the distance of the pose and of the
    stored defaults are in their ranges, and the last cursor position is
    finite. *)
Definition sound (st : State) : Prop :=
  Camera.pitch_in_range (camera st) = true
  /\ Camera.distance_in_range (camera st) = true
  /\ Camera.pitch_in_range (Camera.reset (camera st)) = true
  /\ Camera.distance_in_range (Camera.reset (camera st)) = true
  /\ F64.is_finite (last_mouse_x st) = true
  /\ F64.is_finite (last_mouse_y st) = true.

End Input.

(** Large and infinite camera moves. *)
Definition example_moves : list Camera.op :=
  [Camera.Rotate (F32.of_Z 1000) (F32.of_Z 500);
   Camera.Zoom (S754_infinity false);
   Camera.Pan (F32.of_Z 3) (F32.of_Z 4);
   Camera.Rotate (F32.of_Z 7) (S754_infinity true);
   Camera.Zoom (F32.of_Z (-1000))].

(** A drag with the left button, a scroll far out and the space bar. *)
Definition example_events : list Input.event :=
  [Input.MouseButton false 0 1;
   Input.CursorPos false (F64.of_Z 640) (F64.of_Z 360);
   Input.CursorPos false (F64.of_Z 1640) (F64.of_Z (-2000));
   Input.MouseButton false 0 0;
   Input.Scroll false (F64.of_Z 0) (F64.of_Z (-1000));
   Input.Key 32 1].

(** ** One pass of the main loop, up to the render (src/main.cpp) *)

Module Main.

(** [g_state] is one struct.  The model has the part the callbacks touch
    in [Input.State] and the part the update reads in [App.AppState]; the
    running flag, which is in both, is the one the callbacks leave. *)
Definition settings (cfg : App.AppState) (run : bool) : App.AppState :=
  {| App.running := run;
     App.steps_per_frame := App.steps_per_frame cfg;
     App.dt := App.dt cfg;
     App.max_points := App.max_points cfg |}.

(** [glfwPollEvents()] runs the callbacks of the pending events; then the
    simulation is updated. *)
Definition frame (G : Input.Glfw) (L : MathLib) (evs : list Input.event)
    (cfg : App.AppState) (w : Input.State * LorenzSolver.t)
  : Input.State * LorenzSolver.t :=
  let st := Input.poll G L evs (fst w) in
  (st, App.update (settings cfg (Input.running st)) (snd w)).

End Main.

(** * Properties *)

(** ** binary32: halving is dividing by two *)

Section HalfIsDivTwo.
Import Halving.

Let half : float := S754_finite false 8388608 (-24).
Let two : float := S754_finite false 8388608 (-22).

(** A canonical binary32 mantissa has 24 digits, or fewer at the least
    exponent. *)
Lemma canonical_cases (m : positive) (e : Z) :
  bounded F32.prec F32.emax m e = true ->
  (Zpos (digits2_pos m) = 24 /\ -148 <= e)
  \/ (Zpos (digits2_pos m) <= 24 /\ e = -149).
Proof.
  unfold bounded, canonical_mantissa, fexp, emin, F32.prec, F32.emax.
  intro H. apply andb_prop in H. destruct H as [H1 H2].
  apply Z.eqb_eq in H1. lia.
Qed.

Lemma mul_half_mantissa (m : positive) :
  (8388608 * m
   = m~0~0~0~0~0~0~0~0~0~0~0~0~0~0~0~0~0~0~0~0~0~0~0)%positive.
Proof. reflexivity. Qed.

Lemma shr_fexp_mul_normal (m : positive) (e : Z) :
  Zpos (digits2_pos m) = 24 -> -148 <= e ->
  shr_fexp 24 128 (Zpos (8388608 * m)) (-24 + e) loc_Exact
  = (mrs (Zpos m) false, e - 1).
Proof.
  intros Hd He. rewrite mul_half_mantissa. unfold shr_fexp.
  match goal with |- shr _ _ ?n = _ => assert (E : n = 23) end.
  { unfold fexp, emin. cbn [Zdigits2 digits2_pos]. lia. }
  rewrite E. unfold shr, mrs.
  cbn [iter_pos shr_1 shr_record_of_loc orb]. f_equal. lia.
Qed.

Lemma shr_fexp_mul_subnormal (m : positive) :
  Zpos (digits2_pos m) <= 24 ->
  shr_fexp 24 128 (Zpos (8388608 * m)) (-24 + -149) loc_Exact
  = (halve m, -149).
Proof.
  intros Hd. rewrite mul_half_mantissa. unfold shr_fexp.
  match goal with |- shr _ _ ?n = _ => assert (E : n = 24) end.
  { unfold fexp, emin. cbn [Zdigits2 digits2_pos]. lia. }
  rewrite E. unfold shr, mrs.
  cbn [iter_pos shr_1 shr_record_of_loc orb]. destruct m; reflexivity.
Qed.

Lemma div_eucl_pow2 (a q r : Z) :
  a = 8388608 * q + r -> 0 <= r < 8388608 ->
  Z.div_eucl a 8388608 = (q, r).
Proof.
  intros Ha Hr. pose proof (Z_div_mod a 8388608 eq_refl) as H.
  destruct (Z.div_eucl a 8388608) as [q' r']. destruct H as [H1 H2].
  f_equal; lia.
Qed.

(** The division core, once the exponent of the quotient and the shift of
    the dividend are known. *)
Lemma div_core_shape (m : positive) (e e' : Z) (s : positive) (q r : Z) :
  Z.min (fexp 24 128 (Zdigits2 (Zpos m) + e - (Zdigits2 8388608 + -22)))
        (e - -22) = e' ->
  e - -22 - e' = Zpos s ->
  Z.shiftl (Zpos m) (Zpos s) = 8388608 * q + r ->
  0 <= r < 8388608 ->
  SFdiv_core_binary 24 128 (Zpos m) e 8388608 (-22)
  = (q, e', new_location 8388608 r).
Proof.
  intros He' Hs Hm Hr. unfold SFdiv_core_binary. cbv zeta.
  rewrite He', Hs, (div_eucl_pow2 _ q r Hm Hr). reflexivity.
Qed.

Lemma shiftl_pos (m s : positive) :
  Z.shiftl (Zpos m) (Zpos s) = Zpos m * 2 ^ Zpos s.
Proof. apply Z.shiftl_mul_pow2. lia. Qed.

Lemma div_core_normal (m : positive) (e : Z) :
  Zpos (digits2_pos m) = 24 -> -147 <= e ->
  SFdiv_core_binary 24 128 (Zpos m) e 8388608 (-22)
  = (Zpos m~0, e - 2, loc_Exact).
Proof.
  intros Hd He. rewrite (div_core_shape m e (e - 2) 24 (Zpos m~0) 0).
  - reflexivity.
  - unfold fexp, emin. cbn [Zdigits2 digits2_pos]. lia.
  - lia.
  - rewrite shiftl_pos. change (2 ^ 24) with 16777216. lia.
  - lia.
Qed.

Lemma div_core_lowest_normal (m : positive) :
  Zpos (digits2_pos m) = 24 ->
  SFdiv_core_binary 24 128 (Zpos m) (-148) 8388608 (-22)
  = (Zpos m, -149, loc_Exact).
Proof.
  intros Hd. rewrite (div_core_shape m (-148) (-149) 23 (Zpos m) 0).
  - reflexivity.
  - unfold fexp, emin. cbn [Zdigits2 digits2_pos]. lia.
  - lia.
  - rewrite shiftl_pos. change (2 ^ 23) with 8388608. lia.
  - lia.
Qed.

Lemma div_core_subnormal (m : positive) :
  Zpos (digits2_pos m) <= 24 ->
  SFdiv_core_binary 24 128 (Zpos m) (-149) 8388608 (-22)
  = (shr_m (halve m), -149, loc_of_shr_record (halve m)).
Proof.
  intros Hd.
  rewrite (div_core_shape m (-149) (-149) 22 (shr_m (halve m))
             (if shr_r (halve m) then 4194304 else 0)).
  - destruct m; reflexivity.
  - unfold fexp, emin. cbn [Zdigits2 digits2_pos]. lia.
  - lia.
  - rewrite shiftl_pos. change (2 ^ 22) with 4194304.
    destruct m; cbn [halve mrs shr_m shr_r]; lia.
  - destruct m; cbn [halve mrs shr_m shr_r]; lia.
Qed.

Lemma shr_fexp_div_normal (m : positive) (e : Z) :
  Zpos (digits2_pos m) = 24 -> -147 <= e ->
  shr_fexp 24 128 (Zpos m~0) (e - 2) loc_Exact = (mrs (Zpos m) false, e - 1).
Proof.
  intros Hd He. unfold shr_fexp.
  match goal with |- shr _ _ ?n = _ => assert (E : n = 1) end.
  { unfold fexp, emin. cbn [Zdigits2 digits2_pos]. lia. }
  rewrite E. unfold shr, mrs.
  cbn [iter_pos shr_1 shr_record_of_loc orb]. f_equal. lia.
Qed.

Lemma shr_fexp_div_lowest_normal (m : positive) :
  Zpos (digits2_pos m) = 24 ->
  shr_fexp 24 128 (Zpos m) (-149) loc_Exact = (mrs (Zpos m) false, -148 - 1).
Proof.
  intros Hd. unfold shr_fexp.
  match goal with |- shr _ _ ?n = _ => assert (E : n = 0) end.
  { unfold fexp, emin. cbn [Zdigits2]. lia. }
  rewrite E. reflexivity.
Qed.

Lemma shr_fexp_div_subnormal (m : positive) :
  Zpos (digits2_pos m) <= 24 ->
  shr_fexp 24 128 (shr_m (halve m)) (-149) (loc_of_shr_record (halve m))
  = (halve m, -149).
Proof.
  intros Hd. unfold shr_fexp.
  match goal with |- shr _ _ ?n = _ => assert (E : n = 0) end.
  { unfold fexp, emin.
    destruct m; cbn [halve mrs shr_m Zdigits2 digits2_pos] in *; lia. }
  rewrite E. destruct m; reflexivity.
Qed.

(** Rounding sees its argument through [shr_fexp] only. *)
Lemma binary_round_aux_shr_fexp s m1 e1 l1 m2 e2 l2 :
  shr_fexp 24 128 m1 e1 l1 = shr_fexp 24 128 m2 e2 l2 ->
  binary_round_aux 24 128 s m1 e1 l1 = binary_round_aux 24 128 s m2 e2 l2.
Proof. intro H. unfold binary_round_aux. rewrite H. reflexivity. Qed.

Lemma mul_half_eq_div_two (x : float) :
  F32.valid x = true ->
  SFmul 24 128 half x = SFdiv 24 128 x two.
Proof.
  unfold F32.valid.
  destruct x as [s|s| |s m e]; cbn [valid_binary]; intro Hb;
    try reflexivity; try (destruct s; reflexivity).
  unfold half, two, SFmul, SFdiv.
  replace (xorb s false) with s by (destruct s; reflexivity).
  cbn [xorb].
  destruct (canonical_cases m e Hb) as [[Hd He]|[Hd He]].
  - destruct (Z.eq_dec e (-148)) as [->|Hne].
    + rewrite div_core_lowest_normal by exact Hd.
      apply binary_round_aux_shr_fexp.
      rewrite shr_fexp_div_lowest_normal by exact Hd.
      apply shr_fexp_mul_normal; [exact Hd | lia].
    + rewrite div_core_normal by (try exact Hd; lia).
      apply binary_round_aux_shr_fexp.
      rewrite shr_fexp_div_normal by (try exact Hd; lia).
      apply shr_fexp_mul_normal; [exact Hd | lia].
  - subst e. rewrite div_core_subnormal by exact Hd.
    apply binary_round_aux_shr_fexp.
    rewrite shr_fexp_div_subnormal by exact Hd.
    apply shr_fexp_mul_subnormal. exact Hd.
Qed.

End HalfIsDivTwo.

(** [0.5f * x] is [x / 2.0f], for every binary32 value [x]. *)
Lemma half_times_is_div_two (x : float) :
  F32.valid x = true ->
  (F32.of_ratio 1 2 * x)%f32 = (x / F32.of_Z 2)%f32.
Proof. exact (mul_half_eq_div_two x). Qed.

(** ** The trajectory buffer *)

Section Buffer.
Import LorenzSolver.

Lemma size_length (s : t) : N.to_nat (size s) = length (trajectory_ s).
Proof. unfold size. apply Nat2N.id. Qed.

Lemma back_snoc (l : list vec3) (p : vec3) : back (l ++ [p]) = Some p.
Proof.
  induction l as [|q l IH]; [reflexivity|].
  cbn [app back]. destruct (l ++ [p]) eqn:E; [|exact IH].
  destruct l; discriminate.
Qed.

Lemma back_skipn (n : nat) (l : list vec3) :
  (n < length l)%nat -> back (skipn n l) = back l.
Proof.
  revert l. induction n as [|n IH]; intros l Hn; [reflexivity|].
  destruct l as [|q l]; [inversion Hn|].
  cbn [length] in Hn. cbn [skipn]. rewrite IH by lia.
  destruct l; [inversion Hn; lia | reflexivity].
Qed.

Lemma clearOldest_trajectory (keep : N) (s : t) :
  trajectory_ (clearOldest keep s)
  = skipn (length (trajectory_ s) - N.to_nat keep) (trajectory_ s).
Proof.
  unfold clearOldest. destruct (N.ltb_spec keep (size s)) as [H|H].
  - cbn [trajectory_]. rewrite N2Nat.inj_sub, size_length. reflexivity.
  - assert (E : (length (trajectory_ s) - N.to_nat keep = 0)%nat).
    { rewrite <- size_length. lia. }
    rewrite E. reflexivity.
Qed.

Lemma clearOldest_size (keep : N) (s : t) :
  size (clearOldest keep s) = N.min keep (size s).
Proof.
  unfold size at 1. rewrite clearOldest_trajectory, length_skipn.
  unfold size. lia.
Qed.

Lemma clearOldest_state (keep : N) (s : t) :
  state_ (clearOldest keep s) = state_ s.
Proof. unfold clearOldest. now destruct (keep <? size s)%N. Qed.

End Buffer.

Section SolverClaims.
Import LorenzSolver.

(** C2.  [clearOldest(keep)] leaves exactly [min(keep, previous length)]
    points; they are a suffix of the previous trajectory, that is, its most
    recent points in their original order (point [i] of the new buffer is
    point [old length - new length + i] of the old one); and the call does
    nothing at all when [keep] is the previous length or more. *)
Theorem clearOldest_keeps_most_recent (keep : N) (s : t) :
  let old := getTrajectory s in
  let new := getTrajectory (clearOldest keep s) in
  length new = Nat.min (N.to_nat keep) (length old)
  /\ (exists dropped, old = dropped ++ new)
  /\ (forall i : nat,
         nth_error new i = nth_error old (length old - length new + i))
  /\ (forall extra : N, clearOldest (size s + extra) s = s).
Proof.
  cbv zeta. unfold getTrajectory.
  assert (Hlen : length (trajectory_ (clearOldest keep s))
                 = Nat.min (N.to_nat keep) (length (trajectory_ s))).
  { rewrite clearOldest_trajectory, length_skipn. lia. }
  repeat split.
  - exact Hlen.
  - exists (firstn (length (trajectory_ s) - N.to_nat keep) (trajectory_ s)).
    rewrite clearOldest_trajectory. symmetry. apply firstn_skipn.
  - intro i. rewrite Hlen, clearOldest_trajectory, nth_error_skipn.
    f_equal. lia.
  - intro extra. unfold clearOldest.
    destruct (N.ltb_spec (size s + extra) (size s)) as [H|H]; [lia|reflexivity].
Qed.

(** C9.  [clearOldest] changes the trajectory buffer only: the parameters
    and the current position are what they were. *)
Theorem clearOldest_frame (keep : N) (s : t) :
  sigma_ (clearOldest keep s) = sigma_ s
  /\ rho_ (clearOldest keep s) = rho_ s
  /\ beta_ (clearOldest keep s) = beta_ s
  /\ getState (clearOldest keep s) = getState s.
Proof.
  unfold clearOldest. destruct (keep <? size s)%N; repeat split.
Qed.

(** C6.  [N] calls of [step(dt)] make the trajectory exactly [N] points
    longer, whatever the parameters and [dt]: one call appends one point
    (the new position) behind the points already there, which stay as they
    were and where they were. *)
Theorem step_N_times_appends_N (dt : float) (N : nat) (s : t) :
  let s' := Nat.iter N (step dt) s in
  length (getTrajectory s') = (length (getTrajectory s) + N)%nat
  /\ (exists added,
         length added = N /\ getTrajectory s' = getTrajectory s ++ added)
  /\ getTrajectory (step dt s) = getTrajectory s ++ [getState (step dt s)].
Proof.
  cbv zeta. unfold getTrajectory, getState.
  assert (H : exists added, length added = N
              /\ trajectory_ (Nat.iter N (step dt) s) = trajectory_ s ++ added).
  { induction N as [|n [added [Hl He]]].
    - exists []. split; [reflexivity|]. cbn. now rewrite app_nil_r.
    - exists (added ++ [state_ (step dt (Nat.iter n (step dt) s))]). split.
      + rewrite length_app, Hl. cbn. lia.
      + change (Nat.iter (S n) (step dt) s)
          with (step dt (Nat.iter n (step dt) s)).
        unfold step at 1. cbn [trajectory_].
        rewrite He, <- app_assoc. reflexivity. }
  repeat split.
  - destruct H as [added [Hl He]]. rewrite He, length_app, Hl. reflexivity.
  - exact H.
Qed.

(** C7.  Whatever state the solver is in (so in particular in every state
    that a sequence of calls reaches), [reset()] makes the position
    (0, 1, 0) and the trajectory the one-point sequence (0, 1, 0), and keeps
    sigma, rho and beta. *)
Theorem reset_restores_seed (s : t) :
  let p := Vec3 (F32.of_Z 0) (F32.of_Z 1) (F32.of_Z 0) in
  getState (reset s) = p
  /\ getTrajectory (reset s) = [p]
  /\ sigma_ (reset s) = sigma_ s
  /\ rho_ (reset s) = rho_ s
  /\ beta_ (reset s) = beta_ s.
Proof. repeat split. Qed.

Lemma apply_position_is_last (s : t) (o : op) :
  keeps_a_point o -> position_is_last s -> position_is_last (apply s o).
Proof.
  unfold position_is_last, getTrajectory, getState.
  destruct o as [sg rh bt|x y z|dt|keep|]; cbn [apply keeps_a_point];
    intros Hk Hs; try reflexivity.
  - exact Hs.
  - unfold step. cbn [trajectory_ state_]. apply back_snoc.
  - rewrite clearOldest_state, clearOldest_trajectory.
    destruct (trajectory_ s) as [|q l] eqn:E; [discriminate|].
    rewrite back_skipn; [exact Hs|]. cbn [length]. lia.
Qed.

Lemma apply_empty_or_last (s : t) (o : op) :
  trajectory_ s = [] \/ position_is_last s ->
  trajectory_ (apply s o) = [] \/ position_is_last (apply s o).
Proof.
  intros [He|Hl].
  - destruct o as [sg rh bt|x y z|dt|keep|]; cbn [apply];
      try (right; unfold position_is_last, getTrajectory, getState, step;
           cbn [trajectory_ state_]; first [reflexivity | apply back_snoc]).
    + left. exact He.
    + left. rewrite clearOldest_trajectory, He. apply skipn_nil.
  - destruct o as [sg rh bt|x y z|dt|keep|];
      try (right; apply apply_position_is_last; [exact I | exact Hl]).
    destruct (N.eq_dec keep 0) as [->|Hk].
    + left. cbn [apply]. rewrite clearOldest_trajectory.
      change (N.to_nat 0) with 0%nat. rewrite Nat.sub_0_r. apply skipn_all.
    + right. apply apply_position_is_last; [exact Hk | exact Hl].
Qed.

Lemma back_In (l : list vec3) (p : vec3) : back l = Some p -> In p l.
Proof.
  induction l as [|q l IH]; intro Hp; [discriminate|].
  destruct l as [|q' l].
  - injection Hp as ->. now left.
  - right. apply IH. exact Hp.
Qed.

(** C3, as the code has it.  After construction and after every sequence of
    [setParameters], [setState], [step], [clearOldest] and [reset] calls,
    the trajectory is empty or its last element is the current position;
    and when every [clearOldest(keep)] of the sequence has [keep >= 1], the
    current position is the last element of the trajectory and so a member
    of it. *)
Theorem position_is_last_unless_cleared
    (sigma rho beta : float) (ops : list op) :
  let s := run ops (new sigma rho beta) in
  (getTrajectory s = [] \/ back (getTrajectory s) = Some (getState s))
  /\ (Forall keeps_a_point ops ->
      back (getTrajectory s) = Some (getState s)
      /\ In (getState s) (getTrajectory s)).
Proof.
  cbv zeta. unfold run.
  assert (H0 : position_is_last (new sigma rho beta)) by reflexivity.
  revert H0. generalize (new sigma rho beta). intros s0 H0. split.
  - assert (H : trajectory_ s0 = [] \/ position_is_last s0) by now right.
    clear H0. revert s0 H.
    induction ops as [|o ops IH]; intros s Hs; [exact Hs|].
    cbn [fold_left]. apply IH. now apply apply_empty_or_last.
  - intro Hops.
    assert (H : position_is_last (fold_left apply ops s0)).
    { revert s0 H0.
      induction Hops as [|o ops Ho _ IH]; intros s Hs; [exact Hs|].
      cbn [fold_left]. apply IH. now apply apply_position_is_last. }
    split; [exact H | apply back_In; exact H].
Qed.

(** C3 fails as stated: [clearOldest(0)] on a freshly constructed solver
    empties the trajectory, which then has no last element and does not
    contain the current position. *)
Lemma position_not_in_cleared_trajectory :
  let s := run [ClearOldest 0] LorenzSolver.default in
  getTrajectory s = []
  /\ back (getTrajectory s) <> Some (getState s)
  /\ ~ In (getState s) (getTrajectory s).
Proof.
  cbv zeta. repeat split.
  - discriminate.
  - intros [].
Qed.

Lemma position_is_last_unless_cleared_witness :
  let ops := [Step (F32.of_ratio 1 100); ClearOldest 1;
              SetParameters (F32.of_Z 10) (F32.of_Z 28) (F32.of_ratio 8 3);
              Step (F32.of_ratio 1 100); Reset;
              SetState (F32.of_Z 1) (F32.of_Z 1) (F32.of_Z 1);
              Step (F32.of_ratio 1 100); ClearOldest 5] in
  Forall keeps_a_point ops
  /\ let s := run ops (new (F32.of_Z 10) (F32.of_Z 28) (F32.of_ratio 8 3)) in
     back (getTrajectory s) = Some (getState s)
     /\ In (getState s) (getTrajectory s).
Proof.
  cbv zeta.
  assert (H : Forall keeps_a_point
                [Step (F32.of_ratio 1 100); ClearOldest 1;
                 SetParameters (F32.of_Z 10) (F32.of_Z 28) (F32.of_ratio 8 3);
                 Step (F32.of_ratio 1 100); Reset;
                 SetState (F32.of_Z 1) (F32.of_Z 1) (F32.of_Z 1);
                 Step (F32.of_ratio 1 100); ClearOldest 5]).
  { repeat constructor; discriminate. }
  split; [exact H|].
  exact (proj2 (position_is_last_unless_cleared _ _ _ _) H).
Defined.

End SolverClaims.

(** ** The update phase of a frame *)

Section UpdateLoop.
Import LorenzSolver App.

Lemma size_t_of_int_nonneg (n : Z) :
  0 <= n < 2 ^ 64 -> Z.of_N (size_t_of_int n) = n.
Proof.
  intro H. unfold size_t_of_int. rewrite Z.mod_small by exact H. lia.
Qed.

(** One step followed by the size check leaves at most [max_points]
    points, however many there were before. *)
Lemma step_and_limit_bound (g : AppState) (s : LorenzSolver.t) :
  0 <= max_points g < 2 ^ 64 ->
  Z.of_N (size (step_and_limit g s)) <= max_points g.
Proof.
  intro H. unfold step_and_limit.
  pose proof (size_t_of_int_nonneg _ H) as E.
  destruct (N.ltb_spec (size_t_of_int (max_points g))
                       (size (step (dt g) s))) as [Hlt|Hge].
  - rewrite clearOldest_size. lia.
  - lia.
Qed.

(** A frame that is paused, or whose step count is not positive, leaves
    the solver as it is. *)
Lemma update_idle (g : AppState) (s : LorenzSolver.t) :
  running g = false \/ steps_per_frame g <= 0 -> update g s = s.
Proof.
  unfold update. intros [H|H].
  - now rewrite H.
  - destruct (running g); [|reflexivity].
    destruct (steps_per_frame g); try reflexivity. lia.
Qed.

(** A frame in which the simulation runs and takes a step ends with at
    most [max_points] points. *)
Lemma update_stepping_bound (g : AppState) (s : LorenzSolver.t) :
  0 <= max_points g < 2 ^ 64 ->
  running g = true -> 1 <= steps_per_frame g ->
  Z.of_N (size (update g s)) <= max_points g.
Proof.
  intros Hmp Hrun Hsteps. unfold update. rewrite Hrun.
  destruct (Z.to_nat (steps_per_frame g)) as [|n] eqn:Hn; [lia|].
  change (Nat.iter (S n) (step_and_limit g) s)
    with (step_and_limit g (Nat.iter n (step_and_limit g) s)).
  now apply step_and_limit_bound.
Qed.

(** A frame keeps the bound that holds when it starts. *)
Lemma update_preserves_bound (g : AppState) (s : LorenzSolver.t) :
  0 <= max_points g < 2 ^ 64 ->
  Z.of_N (size s) <= max_points g ->
  Z.of_N (size (update g s)) <= max_points g.
Proof.
  intros Hmp Hs.
  destruct (running g) eqn:Hrun;
    [destruct (Z_le_gt_dec 1 (steps_per_frame g)) as [Hst|Hst]|].
  - now apply update_stepping_bound.
  - rewrite update_idle by (right; lia). exact Hs.
  - rewrite update_idle by now left. exact Hs.
Qed.

(** With [max_points] held at one value that the first trajectory respects,
    every frame of a run ends within the bound, whatever the other
    settings are from frame to frame. *)
Lemma frames_keep_bound (mp : Z) (gs : list AppState) (s : LorenzSolver.t) :
  0 <= mp < 2 ^ 64 ->
  Forall (fun g => max_points g = mp) gs ->
  Z.of_N (size s) <= mp ->
  Z.of_N (size (fold_left (fun s' g => update g s') gs s)) <= mp.
Proof.
  intros Hmp Hgs. revert s.
  induction Hgs as [|g gs Hg _ IH]; intros s Hs; [exact Hs|].
  cbn [fold_left]. apply IH. rewrite <- Hg.
  apply update_preserves_bound; rewrite Hg; assumption.
Qed.

(** C5, as the code has it.  With a [max_points] that is not negative:
    after the update phase of a frame in which the simulation runs and
    takes at least one step, the trajectory has at most [max_points]
    points; and after the update phase of any frame it has at most
    [max_points] points if it had so before.  (A frame that takes no step
    does not touch the trajectory.) *)
Theorem update_keeps_length_bound (g : AppState) (s : LorenzSolver.t) :
  0 <= max_points g < 2 ^ 31 ->
  (running g = true /\ 1 <= steps_per_frame g)
  \/ Z.of_N (size s) <= max_points g ->
  Z.of_N (size (update g s)) <= max_points g.
Proof.
  intros Hmp [[Hrun Hsteps]|Hs].
  - apply update_stepping_bound; [lia | exact Hrun | exact Hsteps].
  - apply update_preserves_bound; [lia | exact Hs].
Qed.

(** C5 fails as stated: after 51 running frames from the solver that [main]
    sets up, the trajectory has 1021 points; a frame that is paused, with
    [max_points] lowered to 1000, completes with all 1021 points. *)
Lemma paused_frame_exceeds_max_points :
  let s := Nat.iter 51 (update g_running) solver0 in
  length (getTrajectory (update g_paused_lowered s)) = 1021%nat
  /\ ~ (Z.of_nat (length (getTrajectory (update g_paused_lowered s)))
        <= max_points g_paused_lowered).
Proof.
  cbv zeta.
  assert (E : length (getTrajectory
                (update g_paused_lowered
                   (Nat.iter 51 (update g_running) solver0))) = 1021%nat)
    by (vm_compute; reflexivity).
  split; [exact E|]. rewrite E. cbn. lia.
Qed.

Lemma update_keeps_length_bound_witness :
  0 <= max_points g_running < 2 ^ 31
  /\ ((running g_running = true /\ 1 <= steps_per_frame g_running)
      \/ Z.of_N (size solver0) <= max_points g_running)
  /\ Z.of_N (size (update g_running solver0)) <= max_points g_running.
Proof.
  assert (H1 : 0 <= max_points g_running < 2 ^ 31) by (cbn; lia).
  assert (H2 : (running g_running = true /\ 1 <= steps_per_frame g_running)
               \/ Z.of_N (size solver0) <= max_points g_running).
  { left. split; [reflexivity | cbn; lia]. }
  split; [exact H1|]. split; [exact H2|].
  exact (update_keeps_length_bound g_running solver0 H1 H2).
Defined.

End UpdateLoop.

(** ** The orbit camera *)

Section CameraClaims.
Import Camera.

Variable L : MathLib.

Lemma apply_same_settings (c : t) (o : op) : same_settings c (apply L c o).
Proof. destruct o; repeat split. Qed.

Lemma run_same_settings (ops : list op) (c : t) :
  same_settings c (run L ops c).
Proof.
  unfold run. revert c. induction ops as [|o ops IH]; intro c.
  - repeat split.
  - cbn [fold_left].
    destruct (IH (apply L c o)) as (H1 & H2 & H3 & H4 & H5 & H6 & H7).
    destruct (apply_same_settings c o) as (A1 & A2 & A3 & A4 & A5 & A6 & A7).
    unfold same_settings. rewrite H1, H2, H3, H4, H5, H6, H7.
    repeat split; assumption.
Qed.

End CameraClaims.

(** C8.  After any sequence of [rotate], [zoom] and [pan] calls (and of
    [reset] calls, too) on a camera constructed with [dist], [yaw_deg] and
    [pitch_deg], [reset()] makes distance, yaw, pitch and target the very
    values the constructor gave them, and leaves fov, near_plane and
    far_plane as they were before the call. *)
Theorem camera_reset_restores_defaults
    (L : MathLib) (dist yaw_deg pitch_deg : float) (ops : list Camera.op) :
  let c0 := Camera.new dist yaw_deg pitch_deg in
  let c := Camera.run L ops c0 in
  let r := Camera.reset c in
  Camera.distance r = dist
  /\ Camera.yaw r = yaw_deg
  /\ Camera.pitch r = pitch_deg
  /\ Camera.target r = Vec3 (F32.of_Z 0) (F32.of_Z 0) (F32.of_Z 25)
  /\ Camera.distance r = Camera.distance c0
  /\ Camera.yaw r = Camera.yaw c0
  /\ Camera.pitch r = Camera.pitch c0
  /\ Camera.target r = Camera.target c0
  /\ Camera.fov r = Camera.fov c
  /\ Camera.near_plane r = Camera.near_plane c
  /\ Camera.far_plane r = Camera.far_plane c.
Proof.
  cbv zeta.
  destruct (run_same_settings L ops (Camera.new dist yaw_deg pitch_deg))
    as (_ & _ & _ & H4 & H5 & H6 & H7).
  unfold Camera.reset, Camera.set_pose.
  cbn [Camera.distance Camera.yaw Camera.pitch Camera.target Camera.fov
       Camera.near_plane Camera.far_plane].
  rewrite H4, H5, H6, H7. repeat split.
Qed.

(** C10.  [pan] writes the target only: distance, yaw, pitch, fov,
    near_plane and far_plane (and the stored defaults) are unchanged,
    whatever the two deltas are. *)
Theorem pan_changes_target_only
    (L : MathLib) (delta_x delta_y : float) (c : Camera.t) :
  let c' := Camera.pan L delta_x delta_y c in
  Camera.distance c' = Camera.distance c
  /\ Camera.yaw c' = Camera.yaw c
  /\ Camera.pitch c' = Camera.pitch c
  /\ Camera.fov c' = Camera.fov c
  /\ Camera.near_plane c' = Camera.near_plane c
  /\ Camera.far_plane c' = Camera.far_plane c
  /\ Camera.default_distance c' = Camera.default_distance c
  /\ Camera.default_yaw c' = Camera.default_yaw c
  /\ Camera.default_pitch c' = Camera.default_pitch c
  /\ Camera.default_target c' = Camera.default_target c.
Proof. repeat split. Qed.

(** *** Comparison of binary32 values and [std::clamp] *)

Lemma SFcompare_antisym (a b : float) :
  SFcompare b a = option_map CompOpp (SFcompare a b).
Proof.
  destruct a as [sa|sa| |sa ma ea], b as [sb|sb| |sb mb eb]; cbn;
    try reflexivity;
    try (destruct sa; reflexivity); try (destruct sb; reflexivity);
    try (destruct sa, sb; reflexivity).
  f_equal. rewrite (Z.compare_antisym ea eb).
  change (Pos.compare_cont Eq mb ma) with (Pos.compare mb ma).
  change (Pos.compare_cont Eq ma mb) with (Pos.compare ma mb).
  rewrite (Pos.compare_antisym ma mb).
  destruct sa, sb, (ea ?= eb), (ma ?= mb)%positive; reflexivity.
Qed.

Lemma SFcompare_refl (a : float) :
  F32.is_nan a = false -> SFcompare a a = Some Eq.
Proof.
  destruct a as [sa|sa| |sa ma ea]; cbn; try reflexivity;
    try (destruct sa; reflexivity); try discriminate.
  intros _. rewrite Z.compare_refl.
  change (Pos.compare_cont Eq ma ma) with (Pos.compare ma ma).
  rewrite Pos.compare_refl. destruct sa; reflexivity.
Qed.

Lemma leb_of_not_ltb (a b : float) :
  F32.is_nan a = false -> F32.is_nan b = false ->
  F32.ltb a b = false -> F32.leb b a = true.
Proof.
  unfold F32.ltb, F32.leb, SFltb, SFleb. intros Ha Hb.
  rewrite (SFcompare_antisym a b).
  destruct (SFcompare a b) as [[]|] eqn:E; cbn; try reflexivity;
    try discriminate.
  destruct a, b; cbn in *; discriminate.
Qed.

(** [std::clamp] of a value that is not NaN lies between the bounds. *)
Lemma clamp_between (v lo hi : float) :
  F32.leb lo hi = true -> F32.is_nan v = false ->
  F32.leb lo (Camera.clamp v lo hi) = true
  /\ F32.leb (Camera.clamp v lo hi) hi = true.
Proof.
  intros Hlh Hv.
  assert (Hlo : F32.is_nan lo = false).
  { destruct lo; try reflexivity. discriminate. }
  assert (Hhi : F32.is_nan hi = false).
  { destruct hi; try reflexivity. destruct lo; discriminate. }
  assert (Hrefl : forall a, F32.is_nan a = false -> F32.leb a a = true).
  { intros a Ha. unfold F32.leb, SFleb. now rewrite SFcompare_refl. }
  unfold Camera.clamp.
  destruct (F32.ltb v lo) eqn:E1; [split; [now apply Hrefl | exact Hlh]|].
  destruct (F32.ltb hi v) eqn:E2; [split; [exact Hlh | now apply Hrefl]|].
  split; now apply leb_of_not_ltb.
Qed.

(** *** Sums of finite values are not NaN *)

Lemma shr_1_nonneg (r : shr_record) : 0 <= shr_m r -> 0 <= shr_m (shr_1 r).
Proof.
  destruct r as [m r s]. cbn [shr_m]. intro H.
  destruct m as [|[p|p|]|p]; cbn; lia.
Qed.

Lemma iter_shr_1_nonneg (p : positive) (r : shr_record) :
  0 <= shr_m r -> 0 <= shr_m (iter_pos shr_1 p r).
Proof.
  revert r. induction p as [p IH|p IH|]; intros r H; cbn [iter_pos].
  - apply IH, IH, shr_1_nonneg, H.
  - apply IH, IH, H.
  - apply shr_1_nonneg, H.
Qed.

Lemma shr_fexp_nonneg (m e : Z) (l : location) :
  0 <= m -> 0 <= shr_m (fst (shr_fexp 24 128 m e l)).
Proof.
  intro H. unfold shr_fexp, shr.
  assert (H0 : 0 <= shr_m (shr_record_of_loc m l)).
  { destruct l as [|[]]; exact H. }
  destruct (fexp 24 128 (Zdigits2 m + e) - e); cbn [fst]; try exact H0.
  now apply iter_shr_1_nonneg.
Qed.

Lemma binary_round_aux_not_nan (s : bool) (m e : Z) (l : location) :
  0 <= m -> F32.is_nan (binary_round_aux 24 128 s m e l) = false.
Proof.
  intro H. unfold binary_round_aux.
  pose proof (shr_fexp_nonneg m e l H) as H1.
  destruct (shr_fexp 24 128 m e l) as [r1 e1]. cbn [fst] in H1.
  assert (H2 : 0 <= round_nearest_even (shr_m r1) (loc_of_shr_record r1)).
  { unfold round_nearest_even.
    destruct (loc_of_shr_record r1) as [|[]]; try lia.
    destruct (Z.even (shr_m r1)); lia. }
  pose proof (shr_fexp_nonneg _ e1 loc_Exact H2) as H3.
  destruct (shr_fexp 24 128 _ e1 loc_Exact) as [r2 e2]. cbn [fst] in H3.
  destruct (shr_m r2) as [|p|p]; [reflexivity| |lia].
  destruct (e2 <=? 128 - 24); reflexivity.
Qed.

Lemma binary_normalize_not_nan (m e : Z) (sz : bool) :
  F32.is_nan (binary_normalize 24 128 m e sz) = false.
Proof.
  unfold binary_normalize, binary_round.
  destruct m as [|p|p]; [reflexivity| |].
  - destruct (shl_align p e _) as [mz ez]. now apply binary_round_aux_not_nan.
  - destruct (shl_align p e _) as [mz ez]. now apply binary_round_aux_not_nan.
Qed.

Lemma add_finite_not_nan (a b : float) :
  F32.is_finite a = true -> F32.is_finite b = true ->
  F32.is_nan (a + b)%f32 = false.
Proof.
  unfold F32.add.
  destruct a as [sa|sa| |sa ma ea], b as [sb|sb| |sb mb eb];
    try discriminate; intros _ _; cbn [SFadd];
    try reflexivity; try (destruct sa, sb; reflexivity).
  apply binary_normalize_not_nan.
Qed.

Lemma between_finite (lo hi v : float) :
  F32.is_finite lo = true -> F32.is_finite hi = true ->
  F32.leb lo v = true -> F32.leb v hi = true -> F32.is_finite v = true.
Proof.
  destruct lo as [sl|sl| |sl ml el]; try discriminate;
  destruct hi as [sh|sh| |sh mh eh]; try discriminate;
  destruct v as [s|s| |s m e]; try reflexivity; intros _ _;
  try discriminate; destruct s; cbn; try discriminate;
  try (destruct sl; discriminate); try (destruct sh; discriminate).
Qed.

(** *** Pitch and distance stay in range *)

Lemma rotate_pitch_between (delta_yaw delta_pitch : float) (c : Camera.t) :
  F32.is_nan (Camera.pitch c + delta_pitch)%f32 = false ->
  Camera.pitch_in_range (Camera.rotate delta_yaw delta_pitch c) = true.
Proof.
  intro H. unfold Camera.pitch_in_range, Camera.rotate, Camera.set_pose.
  cbn [Camera.pitch].
  destruct (clamp_between (Camera.pitch c + delta_pitch)%f32
              (F32.of_Z (-89)) (F32.of_Z 89) eq_refl H) as [H1 H2].
  now rewrite H1, H2.
Qed.

Lemma zoom_distance_between (delta : float) (c : Camera.t) :
  F32.is_nan (Camera.distance c + delta)%f32 = false ->
  Camera.distance_in_range (Camera.zoom delta c) = true.
Proof.
  intro H. unfold Camera.distance_in_range, Camera.zoom, Camera.set_pose.
  cbn [Camera.distance].
  destruct (clamp_between (Camera.distance c + delta)%f32
              (F32.of_Z 5) (F32.of_Z 200) eq_refl H) as [H1 H2].
  now rewrite H1, H2.
Qed.

Lemma pitch_in_range_finite (c : Camera.t) :
  Camera.pitch_in_range c = true -> F32.is_finite (Camera.pitch c) = true.
Proof.
  unfold Camera.pitch_in_range. intro H. apply andb_prop in H.
  destruct H as [H1 H2].
  exact (between_finite (F32.of_Z (-89)) (F32.of_Z 89) _
           eq_refl eq_refl H1 H2).
Qed.

Lemma distance_in_range_finite (c : Camera.t) :
  Camera.distance_in_range c = true ->
  F32.is_finite (Camera.distance c) = true.
Proof.
  unfold Camera.distance_in_range. intro H. apply andb_prop in H.
  destruct H as [H1 H2].
  exact (between_finite (F32.of_Z 5) (F32.of_Z 200) _
           eq_refl eq_refl H1 H2).
Qed.

(** The part of the camera invariant that the code keeps: from a pose whose
    pitch is in [-89, 89] and whose distance is in [5, 200] (the default
    pose is one), every sequence of [rotate], [zoom] and [pan] calls with
    finite arguments leads to such a pose. *)
Lemma pitch_and_distance_stay_in_range
    (L : MathLib) (ops : list Camera.op) (c : Camera.t) :
  Forall Camera.finite_delta ops ->
  Camera.pitch_in_range c = true -> Camera.distance_in_range c = true ->
  Camera.pitch_in_range (Camera.run L ops c) = true
  /\ Camera.distance_in_range (Camera.run L ops c) = true.
Proof.
  intro Hops. unfold Camera.run. revert c.
  induction Hops as [|o ops Ho _ IH]; intros c Hp Hd; [now split|].
  cbn [fold_left].
  destruct o as [dy dp|d|dx dy|]; cbn [Camera.apply Camera.finite_delta] in *.
  - apply IH; [|exact Hd]. apply rotate_pitch_between.
    apply add_finite_not_nan; [now apply pitch_in_range_finite | apply Ho].
  - apply IH; [exact Hp|]. apply zoom_distance_between.
    apply add_finite_not_nan; [now apply distance_in_range_finite | exact Ho].
  - apply IH; [exact Hp | exact Hd].
  - destruct Ho.
Qed.

(** C4 at four inputs.  On the default camera (yaw 45, pitch 20, distance
    60): [rotate(1000, 0)] leaves yaw 685, [rotate(-1000, 0)] leaves yaw
    -595 and [rotate(315, 0)] leaves yaw 360; and [rotate(-45, 0)] followed
    by [rotate(-0.000001, 0)] leaves yaw 360 as well, the sum of the small
    negative yaw and 360 being rounded.  None of these is in [0, 360),
    while the pitch and the distance are in their ranges. *)
Theorem rotate_wraps_yaw_once_only :
  let zero := F32.of_Z 0 in
  let c1 := Camera.rotate (F32.of_Z 1000) zero Camera.default in
  let c2 := Camera.rotate (F32.of_Z (-1000)) zero Camera.default in
  let c3 := Camera.rotate (F32.of_Z 315) zero Camera.default in
  let c4 := Camera.rotate (F32.of_ratio (-1) 1000000) zero
              (Camera.rotate (F32.of_Z (-45)) zero Camera.default) in
  (Camera.yaw c1 = F32.of_Z 685 /\ Camera.yaw_in_range c1 = false)
  /\ (Camera.yaw c2 = F32.of_Z (-595) /\ Camera.yaw_in_range c2 = false)
  /\ (Camera.yaw c3 = F32.of_Z 360 /\ Camera.yaw_in_range c3 = false)
  /\ (Camera.yaw c4 = F32.of_Z 360 /\ Camera.yaw_in_range c4 = false)
  /\ Camera.pitch_in_range c1 = true /\ Camera.distance_in_range c1 = true
  /\ Camera.pitch_in_range c4 = true /\ Camera.distance_in_range c4 = true.
Proof. vm_compute. repeat split. Qed.

(** ** The integration step *)

Lemma derivatives_is_field (s : LorenzSolver.t) (p : vec3) :
  LorenzSolver.derivatives s p
  = Spec.f (LorenzSolver.sigma_ s) (LorenzSolver.rho_ s)
           (LorenzSolver.beta_ s) p.
Proof. reflexivity. Qed.

(** C1.  [step(dt)] replaces the position by one classical RK4 iteration
    from it, k1 = f(position), k2 = f(position + dt/2 k1),
    k3 = f(position + dt/2 k2), k4 = f(position + dt k3),
    position' = position + dt/6 (k1 + 2 k2 + 2 k3 + k4), where f is the
    Lorenz field and the four evaluations use the parameters the solver
    holds at the call, which the call leaves as they are.  [dt] is any
    binary32 value. *)
Theorem step_is_one_rk4_iteration (dt : float) (s : LorenzSolver.t) :
  F32.valid dt = true ->
  LorenzSolver.getState (LorenzSolver.step dt s)
  = Spec.rk4 (LorenzSolver.sigma_ s) (LorenzSolver.rho_ s)
             (LorenzSolver.beta_ s) dt (LorenzSolver.getState s)
  /\ LorenzSolver.sigma_ (LorenzSolver.step dt s) = LorenzSolver.sigma_ s
  /\ LorenzSolver.rho_ (LorenzSolver.step dt s) = LorenzSolver.rho_ s
  /\ LorenzSolver.beta_ (LorenzSolver.step dt s) = LorenzSolver.beta_ s.
Proof.
  intro Hdt. repeat split.
  unfold LorenzSolver.getState, LorenzSolver.step, Spec.rk4.
  cbn [LorenzSolver.state_]. cbv zeta.
  rewrite !derivatives_is_field, (half_times_is_div_two dt Hdt).
  reflexivity.
Qed.

Lemma step_is_one_rk4_iteration_witness :
  let dt := F32.of_ratio 1 100 in
  let s := LorenzSolver.default in
  F32.valid dt = true
  /\ (LorenzSolver.getState (LorenzSolver.step dt s)
      = Spec.rk4 (LorenzSolver.sigma_ s) (LorenzSolver.rho_ s)
                 (LorenzSolver.beta_ s) dt (LorenzSolver.getState s)
      /\ LorenzSolver.sigma_ (LorenzSolver.step dt s) = LorenzSolver.sigma_ s
      /\ LorenzSolver.rho_ (LorenzSolver.step dt s) = LorenzSolver.rho_ s
      /\ LorenzSolver.beta_ (LorenzSolver.step dt s) = LorenzSolver.beta_ s).
Proof.
  cbv zeta. split; [reflexivity|].
  apply (step_is_one_rk4_iteration (F32.of_ratio 1 100) LorenzSolver.default).
  reflexivity.
Defined.

(** * Further properties of the solver *)

Section SolverOrbit.
Import LorenzSolver Orbit.

(** X1.  The points that [N] calls of [step(dt)] append are, in order, the
    positions after the first, the second, ... and the [N]-th call: the
    buffer is the chronological record of the positions. *)
Theorem trajectory_records_successive_positions
    (dt : float) (N : nat) (s : t) :
  getTrajectory (Nat.iter N (step dt) s)
  = getTrajectory s
    ++ map (fun i => getState (Nat.iter (S i) (step dt) s)) (seq 0 N).
Proof.
  unfold getTrajectory, getState. induction N as [|n IH].
  - cbn. now rewrite app_nil_r.
  - rewrite seq_S, map_app, app_assoc, <- IH. reflexivity.
Qed.

(** X2.  [setParameters] leaves the position and the trajectory alone, and
    the next [step] integrates with the new parameters: it is the RK4
    iteration of the specification for the sigma, rho and beta just set. *)
Theorem setParameters_takes_effect_at_next_step
    (sigma rho beta dt : float) (s : t) :
  F32.valid dt = true ->
  getState (setParameters sigma rho beta s) = getState s
  /\ getTrajectory (setParameters sigma rho beta s) = getTrajectory s
  /\ getState (step dt (setParameters sigma rho beta s))
     = Spec.rk4 sigma rho beta dt (getState s).
Proof.
  intro Hdt. repeat split.
  unfold getState, step, Spec.rk4, setParameters.
  cbn [state_ sigma_ rho_ beta_]. cbv zeta.
  rewrite !derivatives_is_field, (half_times_is_div_two dt Hdt).
  reflexivity.
Qed.

Lemma setParameters_takes_effect_at_next_step_witness :
  let dt := F32.of_ratio 1 100 in
  let s := LorenzSolver.default in
  let sigma := F32.of_Z 14 in
  let rho := F32.of_Z 35 in
  let beta := F32.of_Z 3 in
  F32.valid dt = true
  /\ (getState (setParameters sigma rho beta s) = getState s
      /\ getTrajectory (setParameters sigma rho beta s) = getTrajectory s
      /\ getState (step dt (setParameters sigma rho beta s))
         = Spec.rk4 sigma rho beta dt (getState s)).
Proof.
  cbv zeta. split; [reflexivity|].
  apply (setParameters_takes_effect_at_next_step
           (F32.of_Z 14) (F32.of_Z 35) (F32.of_Z 3) (F32.of_ratio 1 100)
           LorenzSolver.default).
  reflexivity.
Defined.

(** X3.  Two [clearOldest] calls in a row are one call with the smaller of
    the two arguments. *)
Theorem clearOldest_twice_is_min (a b : N) (s : t) :
  clearOldest a (clearOldest b s) = clearOldest (N.min a b) s.
Proof.
  unfold clearOldest at 2.
  destruct (N.ltb_spec b (size s)) as [Hb|Hb].
  - unfold clearOldest, size. cbn [trajectory_ sigma_ rho_ beta_ state_].
    rewrite length_skipn. fold (size s).
    assert (E : N.of_nat (length (trajectory_ s) - N.to_nat (size s - b)) = b).
    { unfold size in *. lia. }
    rewrite E.
    destruct (N.ltb_spec a b) as [Hab|Hab].
    + rewrite N.min_l by lia.
      destruct (N.ltb_spec a (size s)) as [_|H]; [|lia].
      rewrite skipn_skipn. do 2 f_equal. lia.
    + rewrite N.min_r by lia.
      destruct (N.ltb_spec b (size s)) as [_|H]; [reflexivity|lia].
  - destruct (N.ltb_spec a (size s)) as [Ha|Ha].
    + rewrite N.min_l by lia. reflexivity.
    + unfold clearOldest.
      destruct (N.ltb_spec a (size s)) as [H|_]; [lia|].
      destruct (N.ltb_spec (N.min a b) (size s)) as [H|_]; [lia|reflexivity].
Qed.

(** X4.  Parameters change by [setParameters] only: after any sequence of
    calls the solver holds the sigma, rho and beta of the last
    [setParameters] of the sequence, or its first ones when there is none;
    [setState], [step], [clearOldest] and [reset] never touch them. *)
Theorem parameters_are_the_last_set (ops : list op) (s : t) :
  parameters (run ops s) = last_parameters ops (parameters s).
Proof.
  unfold run, last_parameters. revert s.
  induction ops as [|o ops IH]; intro s; [reflexivity|].
  cbn [fold_left]. rewrite IH. f_equal.
  destruct o as [sg rh bt|x y z|dt|keep|]; try reflexivity.
  unfold parameters. cbn [apply]. unfold clearOldest.
  now destruct (keep <? size s)%N.
Qed.

(** X20.  [reset()] after any sequence of calls leaves a solver equal to
    a freshly constructed one with the parameters in force, that is, those
    of the last [setParameters] of the sequence or else the constructor's. *)
Theorem reset_returns_a_fresh_solver
    (sigma rho beta : float) (ops : list op) :
  reset (run ops (new sigma rho beta))
  = let '(sigma', rho', beta') := last_parameters ops (sigma, rho, beta) in
    new sigma' rho' beta'.
Proof.
  assert (H : parameters (run ops (new sigma rho beta))
              = last_parameters ops (sigma, rho, beta)).
  { change (sigma, rho, beta) with (parameters (new sigma rho beta)).
    unfold run, last_parameters. generalize (new sigma rho beta).
    induction ops as [|o ops IH]; intro s; [reflexivity|].
    cbn [fold_left]. rewrite IH. f_equal.
    destruct o as [sg rh bt|x y z|dt|keep|]; try reflexivity.
    unfold parameters. cbn [apply]. unfold clearOldest.
    now destruct (keep <? size s)%N. }
  destruct (last_parameters ops (sigma, rho, beta)) as [[sg rh] bt].
  unfold parameters in H. injection H as H1 H2 H3.
  unfold reset. now rewrite H1, H2, H3.
Qed.

End SolverOrbit.

(** ** NaN in the integration *)

Section NanPropagation.
Import LorenzSolver Orbit.

Lemma add_nan_r (x : float) : (x + S754_nan)%f32 = S754_nan.
Proof. now destruct x. Qed.
Lemma sub_nan_r (x : float) : (x - S754_nan)%f32 = S754_nan.
Proof. now destruct x. Qed.
Lemma mul_nan_r (x : float) : (x * S754_nan)%f32 = S754_nan.
Proof. now destruct x. Qed.

Lemma add_nan_l (x : float) : (S754_nan + x)%f32 = S754_nan.
Proof. reflexivity. Qed.
Lemma sub_nan_l (x : float) : (S754_nan - x)%f32 = S754_nan.
Proof. reflexivity. Qed.
Lemma mul_nan_l (x : float) : (S754_nan * x)%f32 = S754_nan.
Proof. reflexivity. Qed.

Ltac nan_simpl :=
  repeat first
    [ rewrite add_nan_r | rewrite sub_nan_r | rewrite mul_nan_r
    | rewrite add_nan_l | rewrite sub_nan_l | rewrite mul_nan_l ].

Lemma is_nan_eq (x : float) : F32.is_nan x = true -> x = S754_nan.
Proof. destruct x; (reflexivity || discriminate). Qed.

Lemma vadd_nan3_r (p : vec3) : (p + nan3)%vec3 = nan3.
Proof. unfold Glm.vadd, nan3. cbn [vx vy vz]. now rewrite !add_nan_r. Qed.

Lemma vadd_nan3_l (p : vec3) : (nan3 + p)%vec3 = nan3.
Proof. reflexivity. Qed.

Lemma smul_nan3 (a : float) : (a * nan3)%vec3 = nan3.
Proof. unfold Glm.smul, nan3. cbn [vx vy vz]. now rewrite !mul_nan_r. Qed.

Lemma smul_nan (p : vec3) : (S754_nan * p)%vec3 = nan3.
Proof. reflexivity. Qed.

(** The second component of the field is NaN as soon as a coordinate is. *)
Lemma derivatives_y_nan (s : t) (p : vec3) :
  has_nan p = true -> vy (derivatives s p) = S754_nan.
Proof.
  unfold has_nan, derivatives. destruct p as [x y z]. cbn [vx vy vz].
  intro H. apply orb_prop in H.
  destruct H as [H|H]; [apply orb_prop in H; destruct H as [H|H]|];
    apply is_nan_eq in H; subst;
    nan_simpl; reflexivity.
Qed.

(** The whole field is NaN when the second coordinate is. *)
Lemma derivatives_of_nan_y (s : t) (p : vec3) :
  vy p = S754_nan -> derivatives s p = nan3.
Proof.
  unfold derivatives, nan3. destruct p as [x y z]. cbn [vx vy vz].
  intros ->. nan_simpl. reflexivity.
Qed.

(** One step from a position with a NaN coordinate, or with a NaN step
    size, makes every coordinate NaN. *)
Lemma step_poisoned (dt : float) (s : t) :
  has_nan (getState s) = true \/ F32.is_nan dt = true ->
  getState (step dt s) = nan3.
Proof.
  unfold getState, step. cbn [state_]. cbv zeta. intros [H|H].
  - pose proof (derivatives_y_nan s (state_ s) H) as Hk1.
    assert (Hk2 : derivatives s
              (state_ s
               + (F32.of_ratio 1 2 * dt)%f32 * derivatives s (state_ s))%vec3
            = nan3).
    { apply derivatives_of_nan_y. unfold Glm.vadd, Glm.smul. cbn [vx vy vz].
      rewrite Hk1. nan_simpl. reflexivity. }
    rewrite Hk2, !smul_nan3, !vadd_nan3_r, !vadd_nan3_l.
    now rewrite smul_nan3, vadd_nan3_r.
  - apply is_nan_eq in H. subst dt.
    change (S754_nan / F32.of_Z 6)%f32 with S754_nan.
    now rewrite smul_nan, vadd_nan3_r.
Qed.

(** X5.  A NaN never leaves the integration: when a coordinate of the
    position is NaN, or [step] is called with a NaN step size, the position
    after that call is (NaN, NaN, NaN), and so is the position after any
    further [step] calls, whatever their step sizes. *)
Theorem nan_poisons_every_later_position
    (dt : float) (dts : list float) (s : t) :
  has_nan (getState s) = true \/ F32.is_nan dt = true ->
  getState (fold_left (fun s' d => step d s') dts (step dt s)) = nan3.
Proof.
  intro H. apply step_poisoned in H. revert H. generalize (step dt s).
  induction dts as [|d dts IH]; intros s' Hs'; [exact Hs'|].
  cbn [fold_left]. apply IH. apply step_poisoned. left. now rewrite Hs'.
Qed.

Lemma nan_poisons_every_later_position_witness :
  let dts := [F32.of_ratio 1 100; F32.of_ratio 1 50] in
  let s := LorenzSolver.default in
  (has_nan (getState s) = true \/ F32.is_nan S754_nan = true)
  /\ getState (fold_left (fun s' d => step d s') dts (step S754_nan s)) = nan3.
Proof.
  cbv zeta.
  assert (H : has_nan (getState LorenzSolver.default) = true
              \/ F32.is_nan S754_nan = true) by (right; reflexivity).
  split; [exact H|].
  exact (nan_poisons_every_later_position S754_nan
           [F32.of_ratio 1 100; F32.of_ratio 1 50] LorenzSolver.default H).
Defined.

End NanPropagation.

(** ** Eviction in the update loop *)

Section Eviction.
Import LorenzSolver App.

(** [clearOldest] as one record, trimming or not. *)
Lemma clearOldest_eq (keep : N) (s : t) :
  clearOldest keep s
  = LorenzSolver.Build (sigma_ s) (rho_ s) (beta_ s) (state_ s)
      (skipn (length (trajectory_ s) - N.to_nat keep) (trajectory_ s)).
Proof.
  unfold clearOldest. destruct (N.ltb_spec keep (size s)) as [H|H].
  - rewrite N2Nat.inj_sub, size_length. reflexivity.
  - assert (E : (length (trajectory_ s) - N.to_nat keep = 0)%nat).
    { rewrite <- size_length. lia. }
    rewrite E. now destruct s.
Qed.

(** The last [k] points of a list that was cut to its last [k] points
    before a point was appended are the last [k] points of the uncut
    list with the point appended. *)
Lemma suffix_snoc_suffix (k : nat) (l : list vec3) (p : vec3) :
  let cut := skipn (length l - k) l in
  skipn (length (cut ++ [p]) - k) (cut ++ [p])
  = skipn (length (l ++ [p]) - k) (l ++ [p]).
Proof.
  cbv zeta. rewrite !length_app, length_skipn. cbn [length].
  destruct (Nat.le_gt_cases (length l) k) as [H|H].
  - replace (length l - k)%nat with 0%nat by lia. cbn [skipn].
    now rewrite Nat.sub_0_r.
  - rewrite !skipn_app, length_skipn, skipn_skipn.
    replace (length l - (length l - k) + 1 - k)%nat with 1%nat by lia.
    replace (1 + (length l - k))%nat with (length l + 1 - k)%nat by lia.
    replace (1 - (length l - (length l - k)))%nat
      with (length l + 1 - k - length l)%nat by lia.
    reflexivity.
Qed.

(** The size check of the loop body is the one [clearOldest] makes. *)
Lemma step_and_limit_is_trim (g : AppState) (s : t) :
  step_and_limit g s
  = clearOldest (size_t_of_int (max_points g)) (step (dt g) s).
Proof.
  unfold step_and_limit, clearOldest.
  now destruct (size_t_of_int (max_points g) <? size (step (dt g) s))%N.
Qed.

Lemma trim_step_trim (keep : N) (d : float) (s : t) :
  clearOldest keep (step d (clearOldest keep s))
  = clearOldest keep (step d s).
Proof.
  rewrite (clearOldest_eq keep s), !clearOldest_eq.
  unfold step. cbn [sigma_ rho_ beta_ state_ trajectory_ derivatives].
  f_equal. apply suffix_snoc_suffix.
Qed.

(** A running frame of [n + 1] steps: evicting after every step gives what
    one eviction after the last step gives. *)
Lemma iter_step_and_limit (g : AppState) (n : nat) (s : t) :
  Nat.iter (S n) (step_and_limit g) s
  = clearOldest (size_t_of_int (max_points g))
      (Nat.iter (S n) (step (dt g)) s).
Proof.
  induction n as [|n IH].
  - apply step_and_limit_is_trim.
  - change (Nat.iter (S (S n)) (step_and_limit g) s)
      with (step_and_limit g (Nat.iter (S n) (step_and_limit g) s)).
    rewrite IH, step_and_limit_is_trim. apply trim_step_trim.
Qed.

Lemma iter_step_size (d : float) (n : nat) (s : t) :
  size (Nat.iter n (step d) s) = (size s + N.of_nat n)%N.
Proof.
  induction n as [|n IH].
  { change (Nat.iter 0 (step d) s) with s. lia. }
  change (Nat.iter (S n) (step d) s) with (step d (Nat.iter n (step d) s)).
  unfold size in *. unfold step at 1. cbn [trajectory_].
  rewrite length_app. cbn [length]. lia.
Qed.

Lemma iter_step_position_is_last (d : float) (n : nat) (s : t) :
  back (trajectory_ (Nat.iter (S n) (step d) s))
  = Some (state_ (Nat.iter (S n) (step d) s)).
Proof.
  change (Nat.iter (S n) (step d) s) with (step d (Nat.iter n (step d) s)).
  unfold step at 1 2. cbn [trajectory_ state_]. apply back_snoc.
Qed.

Lemma update_parameters (g : AppState) (s : t) :
  Orbit.parameters (update g s) = Orbit.parameters s.
Proof.
  unfold update. destruct (running g); [|reflexivity].
  induction (Z.to_nat (steps_per_frame g)) as [|n IH]; [reflexivity|].
  change (Nat.iter (S n) (step_and_limit g) s)
    with (step_and_limit g (Nat.iter n (step_and_limit g) s)).
  rewrite step_and_limit_is_trim, clearOldest_eq, <- IH. reflexivity.
Qed.

(** X6.  In a frame that runs and takes at least one step, evicting after
    every step is the same as stepping [steps_per_frame] times and evicting
    once at the end: the positions computed are those of the plain
    iteration, and the buffer is its buffer cut by one
    [clearOldest(max_points)]. *)
Theorem update_is_steps_then_one_eviction (g : AppState) (s : t) :
  running g = true -> 1 <= steps_per_frame g ->
  update g s
  = clearOldest (size_t_of_int (max_points g))
      (Nat.iter (Z.to_nat (steps_per_frame g)) (step (dt g)) s).
Proof.
  intros Hrun Hsteps. unfold update. rewrite Hrun.
  destruct (Z.to_nat (steps_per_frame g)) as [|n] eqn:Hn; [lia|].
  apply iter_step_and_limit.
Qed.

Lemma update_is_steps_then_one_eviction_witness :
  running g_running = true /\ 1 <= steps_per_frame g_running
  /\ update g_running solver0
     = clearOldest (size_t_of_int (max_points g_running))
         (Nat.iter (Z.to_nat (steps_per_frame g_running))
                   (step (dt g_running)) solver0).
Proof.
  assert (H1 : running g_running = true) by reflexivity.
  assert (H2 : 1 <= steps_per_frame g_running) by (cbn; lia).
  split; [exact H1|]. split; [exact H2|].
  exact (update_is_steps_then_one_eviction g_running solver0 H1 H2).
Defined.

(** X7.  A frame that runs and takes [steps_per_frame >= 1] steps, with a
    [max_points] that is not negative, ends with exactly
    [min(max_points, previous length + steps_per_frame)] points. *)
Theorem update_length_is_min (g : AppState) (s : t) :
  running g = true -> 1 <= steps_per_frame g ->
  0 <= max_points g < 2 ^ 31 ->
  Z.of_N (size (update g s))
  = Z.min (max_points g) (Z.of_N (size s) + steps_per_frame g).
Proof.
  intros Hrun Hsteps Hmp. unfold update. rewrite Hrun.
  destruct (Z.to_nat (steps_per_frame g)) as [|n] eqn:Hn; [lia|].
  rewrite iter_step_and_limit, clearOldest_size, iter_step_size.
  assert (E : Z.of_N (size_t_of_int (max_points g)) = max_points g)
    by (apply size_t_of_int_nonneg; lia).
  lia.
Qed.

Lemma update_length_is_min_witness :
  running g_running = true /\ 1 <= steps_per_frame g_running
  /\ 0 <= max_points g_running < 2 ^ 31
  /\ Z.of_N (size (update g_running solver0))
     = Z.min (max_points g_running)
             (Z.of_N (size solver0) + steps_per_frame g_running).
Proof.
  assert (H1 : running g_running = true) by reflexivity.
  assert (H2 : 1 <= steps_per_frame g_running) by (cbn; lia).
  assert (H3 : 0 <= max_points g_running < 2 ^ 31) by (cbn; lia).
  split; [exact H1|]. split; [exact H2|]. split; [exact H3|].
  exact (update_length_is_min g_running solver0 H1 H2 H3).
Defined.

(** X8.  After a frame that runs and takes at least one step, with
    [max_points >= 1], the last point of the trajectory is the current
    position, whatever the trajectory was before the frame (an empty one
    included). *)
Theorem update_position_is_last (g : AppState) (s : t) :
  running g = true -> 1 <= steps_per_frame g ->
  1 <= max_points g < 2 ^ 31 ->
  back (getTrajectory (update g s)) = Some (getState (update g s)).
Proof.
  intros Hrun Hsteps Hmp. unfold update, getTrajectory, getState.
  rewrite Hrun.
  destruct (Z.to_nat (steps_per_frame g)) as [|n] eqn:Hn; [lia|].
  rewrite iter_step_and_limit, clearOldest_state, clearOldest_trajectory.
  pose proof (iter_step_position_is_last (dt g) n s) as Hlast.
  assert (E : Z.of_N (size_t_of_int (max_points g)) = max_points g)
    by (apply size_t_of_int_nonneg; lia).
  destruct (trajectory_ (Nat.iter (S n) (step (dt g)) s)) as [|q l] eqn:Et;
    [discriminate|].
  rewrite back_skipn; [exact Hlast|]. cbn [length]. lia.
Qed.

Lemma update_position_is_last_witness :
  let cleared := clearOldest 0 solver0 in
  running g_running = true /\ 1 <= steps_per_frame g_running
  /\ 1 <= max_points g_running < 2 ^ 31
  /\ back (getTrajectory (update g_running cleared))
     = Some (getState (update g_running cleared)).
Proof.
  cbv zeta.
  assert (H1 : running g_running = true) by reflexivity.
  assert (H2 : 1 <= steps_per_frame g_running) by (cbn; lia).
  assert (H3 : 1 <= max_points g_running < 2 ^ 31) by (cbn; lia).
  split; [exact H1|]. split; [exact H2|]. split; [exact H3|].
  exact (update_position_is_last g_running (clearOldest 0 solver0) H1 H2 H3).
Defined.

(** X9.  A negative [max_points] switches the limit off: converted to
    [size_t] it is at least 2^64 - 2^31, so (for every trajectory that can
    exist, shorter than 2^63 points) the size check never fires and the
    frame is the plain iteration of [step]. *)
Theorem negative_max_points_never_evicts (g : AppState) (s : t) :
  running g = true ->
  - 2 ^ 31 <= max_points g < 0 ->
  Z.of_N (size s) + Z.max 0 (steps_per_frame g) < 2 ^ 63 ->
  update g s = Nat.iter (Z.to_nat (steps_per_frame g)) (step (dt g)) s.
Proof.
  intros Hrun Hmp Hsize. unfold update. rewrite Hrun.
  assert (HM : 2 ^ 63 <= Z.of_N (size_t_of_int (max_points g))).
  { unfold size_t_of_int.
    pose proof (Z.mod_pos_bound (max_points g) (2 ^ 64) eq_refl) as Hb.
    assert (E : max_points g mod 2 ^ 64 = max_points g + 2 ^ 64).
    { symmetry. apply (Z.mod_unique _ _ (-1)); lia. }
    rewrite E. lia. }
  assert (Hk : (Z.of_nat (Z.to_nat (steps_per_frame g))
                = Z.max 0 (steps_per_frame g))) by lia.
  rewrite <- Hk in Hsize. clear Hk.
  induction (Z.to_nat (steps_per_frame g)) as [|n IH]; [reflexivity|].
  change (Nat.iter (S n) (step_and_limit g) s)
    with (step_and_limit g (Nat.iter n (step_and_limit g) s)).
  change (Nat.iter (S n) (step (dt g)) s)
    with (step (dt g) (Nat.iter n (step (dt g)) s)).
  rewrite IH by lia. unfold step_and_limit.
  pose proof (iter_step_size (dt g) (S n) s) as Hs.
  change (Nat.iter (S n) (step (dt g)) s)
    with (step (dt g) (Nat.iter n (step (dt g)) s)) in Hs.
  destruct (N.ltb_spec (size_t_of_int (max_points g))
              (size (step (dt g) (Nat.iter n (step (dt g)) s))))
    as [H|H]; [lia|reflexivity].
Qed.

Lemma negative_max_points_never_evicts_witness :
  let g := {| running := true; steps_per_frame := 3;
              dt := F32.of_ratio 1 100; max_points := -1 |} in
  running g = true
  /\ - 2 ^ 31 <= max_points g < 0
  /\ Z.of_N (size solver0) + Z.max 0 (steps_per_frame g) < 2 ^ 63
  /\ update g solver0
     = Nat.iter (Z.to_nat (steps_per_frame g)) (step (dt g)) solver0.
Proof.
  cbv zeta.
  set (g := {| running := true; steps_per_frame := 3;
               dt := F32.of_ratio 1 100; max_points := -1 |}).
  assert (H1 : running g = true) by reflexivity.
  assert (H2 : - 2 ^ 31 <= max_points g < 0) by (cbn; lia).
  assert (H3 : Z.of_N (size solver0) + Z.max 0 (steps_per_frame g) < 2 ^ 63)
    by (cbn; lia).
  split; [exact H1|]. split; [exact H2|]. split; [exact H3|].
  exact (negative_max_points_never_evicts g solver0 H1 H2 H3).
Defined.

(** X10.  The main loop never changes the solver's parameters: after any
    number of frames, whatever the application state is in each of them,
    sigma, rho and beta are the ones the solver had at the start. *)
Theorem frames_never_change_parameters (gs : list AppState) (s : t) :
  let s' := fold_left (fun s0 g => update g s0) gs s in
  sigma_ s' = sigma_ s /\ rho_ s' = rho_ s /\ beta_ s' = beta_ s.
Proof.
  cbv zeta.
  assert (H : Orbit.parameters (fold_left (fun s0 g => update g s0) gs s)
              = Orbit.parameters s).
  { revert s. induction gs as [|g gs IH]; intro s; [reflexivity|].
    cbn [fold_left]. rewrite IH. apply update_parameters. }
  unfold Orbit.parameters in H. injection H as H1 H2 H3. now repeat split.
Qed.

End Eviction.

(** * Further properties of the camera *)

Section CameraPose.
Import Camera Pose.

Variable L : MathLib.

(** X11.  [reset()] after any sequence of [rotate], [zoom], [pan] and
    [reset] calls gives back the camera exactly as the constructor made it,
    every field included. *)
Theorem reset_returns_the_constructed_camera
    (dist yaw_deg pitch_deg : float) (ops : list op) :
  reset (run L ops (new dist yaw_deg pitch_deg)) = new dist yaw_deg pitch_deg.
Proof.
  destruct (run_same_settings L ops (new dist yaw_deg pitch_deg))
    as (H1 & H2 & H3 & H4 & H5 & H6 & H7).
  unfold reset, set_pose. rewrite H1, H2, H3, H4, H5, H6, H7. reflexivity.
Qed.

(** Two cameras with one distance and one default distance keep that
    through the same zoom-or-reset call. *)
Lemma distance_follows_zooms (ops : list op) (c1 c2 : t) :
  distance c1 = distance c2 -> default_distance c1 = default_distance c2 ->
  distance (run L ops c1) = distance (run L (filter zoom_or_reset ops) c2).
Proof.
  unfold run. revert c1 c2.
  induction ops as [|o ops IH]; intros c1 c2 Hd Hdd; [exact Hd|].
  destruct o as [dy dp|d|dx dy|]; cbn [filter zoom_or_reset fold_left apply].
  - apply IH; assumption.
  - apply IH; [|assumption]. unfold zoom, set_pose. cbn [distance].
    now rewrite Hd.
  - apply IH; assumption.
  - apply IH; assumption.
Qed.

Lemma orientation_follows_rotations (ops : list op) (c1 c2 : t) :
  yaw c1 = yaw c2 -> pitch c1 = pitch c2 ->
  default_yaw c1 = default_yaw c2 -> default_pitch c1 = default_pitch c2 ->
  yaw (run L ops c1) = yaw (run L (filter rotate_or_reset ops) c2)
  /\ pitch (run L ops c1) = pitch (run L (filter rotate_or_reset ops) c2).
Proof.
  unfold run. revert c1 c2.
  induction ops as [|o ops IH]; intros c1 c2 Hy Hp Hdy Hdp; [now split|].
  destruct o as [dy dp|d|dx dy|];
    cbn [filter rotate_or_reset fold_left apply].
  - apply IH; try assumption; unfold rotate, set_pose; cbn [yaw pitch];
      now rewrite ?Hy, ?Hp.
  - apply IH; assumption.
  - apply IH; assumption.
  - apply IH; assumption.
Qed.

(** X12.  The zoom level does not depend on rotating and panning, and the
    orientation does not depend on zooming and panning: after any sequence
    of calls the distance is what the [zoom] and [reset] calls of the
    sequence alone produce, and yaw and pitch are what its [rotate] and
    [reset] calls alone produce. *)
Theorem distance_and_orientation_are_independent (ops : list op) (c : t) :
  distance (run L ops c) = distance (run L (filter zoom_or_reset ops) c)
  /\ yaw (run L ops c) = yaw (run L (filter rotate_or_reset ops) c)
  /\ pitch (run L ops c) = pitch (run L (filter rotate_or_reset ops) c).
Proof.
  split.
  - now apply distance_follows_zooms.
  - now apply orientation_follows_rotations.
Qed.

End CameraPose.

(** ** NaN and infinities in the pose *)

Section CameraNan.
Import Camera Pose.

Variable L : MathLib.

Lemma add_finite_and_not_nan (a b : float) :
  F32.is_finite a = true -> F32.is_nan b = false ->
  F32.is_nan (a + b)%f32 = false.
Proof.
  intros Ha Hb. destruct b as [sb|sb| |sb mb eb] eqn:Eb; try discriminate;
    try (apply add_finite_not_nan; [exact Ha | reflexivity]).
  destruct a; try discriminate; reflexivity.
Qed.

Lemma clamp_nan (lo hi : float) : clamp S754_nan lo hi = S754_nan.
Proof. unfold clamp. cbn. now destruct hi. Qed.

Lemma rotate_keeps_nan (delta_yaw delta_pitch : float) (c : t) :
  (F32.is_nan (yaw c) = true ->
   F32.is_nan (yaw (rotate delta_yaw delta_pitch c)) = true)
  /\ (F32.is_nan (pitch c) = true ->
      F32.is_nan (pitch (rotate delta_yaw delta_pitch c)) = true).
Proof.
  unfold rotate, set_pose. cbn [yaw pitch]. split; intro H;
    apply is_nan_eq in H; rewrite H.
  - reflexivity.
  - change (S754_nan + delta_pitch)%f32 with S754_nan. now rewrite clamp_nan.
Qed.

Lemma zoom_keeps_nan (delta : float) (c : t) :
  F32.is_nan (distance c) = true ->
  F32.is_nan (distance (zoom delta c)) = true.
Proof.
  unfold zoom, set_pose. cbn [distance]. intro H.
  apply is_nan_eq in H. rewrite H.
  change (S754_nan + delta)%f32 with S754_nan. now rewrite clamp_nan.
Qed.

(** X13.  A NaN delta makes the pose NaN, past the clamp and the wrap, and
    no later [rotate], [zoom] or [pan] repairs it: [rotate] with a NaN
    argument leaves that angle NaN, [zoom(NaN)] leaves the distance NaN,
    and a yaw, pitch or distance that is NaN stays NaN through every
    sequence of calls without a [reset]. *)
Theorem nan_pose_persists (ops : list op) (c : t) :
  (forall d : float,
      F32.is_nan (yaw (rotate S754_nan d c)) = true
      /\ F32.is_nan (pitch (rotate d S754_nan c)) = true
      /\ F32.is_nan (distance (zoom S754_nan c)) = true)
  /\ (Forall relative ops ->
      (F32.is_nan (yaw c) = true -> F32.is_nan (yaw (run L ops c)) = true)
      /\ (F32.is_nan (pitch c) = true ->
          F32.is_nan (pitch (run L ops c)) = true)
      /\ (F32.is_nan (distance c) = true ->
          F32.is_nan (distance (run L ops c)) = true)).
Proof.
  split.
  - intro d. unfold rotate, zoom, set_pose. cbn [yaw pitch distance].
    rewrite !add_nan_r, !clamp_nan. repeat split.
  - intro Hops. unfold run. revert c.
    induction Hops as [|o ops Ho _ IH]; intro c; [now repeat split|].
    cbn [fold_left]. destruct (IH (apply L c o)) as (IHy & IHp & IHd).
    destruct o as [dy dp|d|dx dy|]; cbn [apply relative] in *.
    + destruct (rotate_keeps_nan dy dp c) as [Hy Hp].
      repeat split; intro H; auto.
    + repeat split; intro H; auto using zoom_keeps_nan.
    + repeat split; intro H; auto.
    + destruct Ho.
Qed.


(** X14.  From a pose whose pitch is in [-89, 89] and whose distance is in
    [5, 200], every sequence of [rotate], [zoom] and [pan] calls whose
    angle and zoom arguments are not NaN, infinite ones included, leads to
    such a pose. *)
Theorem pose_stays_in_range_without_nan (ops : list op) (c : t) :
  Forall no_nan_delta ops ->
  pitch_in_range c = true -> distance_in_range c = true ->
  pitch_in_range (run L ops c) = true
  /\ distance_in_range (run L ops c) = true.
Proof.
  intro Hops. unfold run. revert c.
  induction Hops as [|o ops Ho _ IH]; intros c Hp Hd; [now split|].
  cbn [fold_left].
  destruct o as [dy dp|d|dx dy|]; cbn [apply no_nan_delta] in *.
  - apply IH; [|exact Hd]. apply rotate_pitch_between.
    apply add_finite_and_not_nan; [now apply pitch_in_range_finite | apply Ho].
  - apply IH; [exact Hp|]. apply zoom_distance_between.
    apply add_finite_and_not_nan;
      [now apply distance_in_range_finite | exact Ho].
  - apply IH; [exact Hp | exact Hd].
  - destruct Ho.
Qed.


End CameraNan.

Lemma nan_pose_persists_witness :
  let ops := example_moves in
  let c :=
    Camera.rotate S754_nan S754_nan (Camera.zoom S754_nan Camera.default) in
  Forall Pose.relative ops
  /\ F32.is_nan (Camera.yaw (Camera.run example_math ops c)) = true
  /\ F32.is_nan (Camera.pitch (Camera.run example_math ops c)) = true
  /\ F32.is_nan (Camera.distance (Camera.run example_math ops c)) = true.
Proof.
  cbv zeta.
  assert (H : Forall Pose.relative example_moves) by (repeat constructor).
  split; [exact H|].
  destruct (proj2 (nan_pose_persists example_math example_moves
                     (Camera.rotate S754_nan S754_nan
                        (Camera.zoom S754_nan Camera.default)))
                  H) as (Hy & Hp & Hd).
  split; [exact (Hy eq_refl)|].
  split; [exact (Hp eq_refl) | exact (Hd eq_refl)].
Defined.

Lemma pose_stays_in_range_without_nan_witness :
  let c := Camera.run example_math example_moves Camera.default in
  Forall Pose.no_nan_delta example_moves
  /\ Camera.pitch_in_range Camera.default = true
  /\ Camera.distance_in_range Camera.default = true
  /\ Camera.pitch_in_range c = true
  /\ Camera.distance_in_range c = true.
Proof.
  cbv zeta.
  assert (H : Forall Pose.no_nan_delta example_moves)
    by (repeat constructor).
  split; [exact H|]. split; [reflexivity|]. split; [reflexivity|].
  exact (pose_stays_in_range_without_nan example_math example_moves
           Camera.default H eq_refl eq_refl).
Defined.

(** * Properties of the input callbacks *)

(** ** Rounding never yields NaN, in either format *)

Section RoundNotNan.
Variables prec emax : Z.

Lemma shr_fexp_nonneg_any (m e : Z) (l : location) :
  0 <= m -> 0 <= shr_m (fst (shr_fexp prec emax m e l)).
Proof.
  intro H. unfold shr_fexp, shr.
  assert (H0 : 0 <= shr_m (shr_record_of_loc m l)).
  { destruct l as [|[]]; exact H. }
  destruct (fexp prec emax (Zdigits2 m + e) - e); cbn [fst]; try exact H0.
  now apply iter_shr_1_nonneg.
Qed.

Lemma binary_round_aux_not_nan_any (s : bool) (m e : Z) (l : location) :
  0 <= m -> F32.is_nan (binary_round_aux prec emax s m e l) = false.
Proof.
  intro H. unfold binary_round_aux.
  pose proof (shr_fexp_nonneg_any m e l H) as H1.
  destruct (shr_fexp prec emax m e l) as [r1 e1]. cbn [fst] in H1.
  assert (H2 : 0 <= round_nearest_even (shr_m r1) (loc_of_shr_record r1)).
  { unfold round_nearest_even.
    destruct (loc_of_shr_record r1) as [|[]]; try lia.
    destruct (Z.even (shr_m r1)); lia. }
  pose proof (shr_fexp_nonneg_any _ e1 loc_Exact H2) as H3.
  destruct (shr_fexp prec emax _ e1 loc_Exact) as [r2 e2]. cbn [fst] in H3.
  destruct (shr_m r2) as [|p|p]; [reflexivity| |lia].
  destruct (e2 <=? emax - prec); reflexivity.
Qed.

Lemma binary_normalize_not_nan_any (m e : Z) (sz : bool) :
  F32.is_nan (binary_normalize prec emax m e sz) = false.
Proof.
  unfold binary_normalize, binary_round.
  destruct m as [|p|p]; [reflexivity| |].
  - destruct (shl_align p e _) as [mz ez].
    now apply binary_round_aux_not_nan_any.
  - destruct (shl_align p e _) as [mz ez].
    now apply binary_round_aux_not_nan_any.
Qed.

Lemma SFsub_finite_not_nan (a b : spec_float) :
  F64.is_finite a = true -> F64.is_finite b = true ->
  F32.is_nan (SFsub prec emax a b) = false.
Proof.
  destruct a as [sa|sa| |sa ma ea], b as [sb|sb| |sb mb eb];
    try discriminate; intros _ _; cbn [SFsub];
    try reflexivity; try (destruct sa, sb; reflexivity).
  apply binary_normalize_not_nan_any.
Qed.

Lemma SFmul_by_finite_not_nan (a : spec_float) (s : bool) (m : positive)
    (e : Z) :
  F32.is_nan a = false ->
  F32.is_nan (SFmul prec emax a (S754_finite s m e)) = false.
Proof.
  destruct a as [sa|sa| |sa ma ea]; try discriminate; intros _;
    cbn [SFmul]; try reflexivity.
  apply binary_round_aux_not_nan_any. lia.
Qed.

End RoundNotNan.

Section InputFacts.
Import Input.

Variable G : Glfw.
Variable L : MathLib.

Lemma to_float_not_nan (x : double) :
  F32.is_nan x = false -> F32.is_nan (F64.to_float x) = false.
Proof.
  destruct x as [s|s| |s m e]; try discriminate; intros _; try reflexivity.
  apply binary_normalize_not_nan_any.
Qed.

Lemma opp_not_nan (x : double) :
  F32.is_nan x = false -> F32.is_nan (F64.opp x) = false.
Proof. now destruct x. Qed.

Lemma finite_not_nan (x : double) :
  F64.is_finite x = true -> F32.is_nan x = false.
Proof. now destruct x. Qed.

(** The argument that a drag or a scroll passes to the camera is not NaN
    when the [double] it comes from is not. *)
Lemma scaled_not_nan (x : double) (c : float) :
  F32.is_nan x = false ->
  (exists s m e, F64.of_float c = S754_finite s m e) ->
  F32.is_nan (F64.to_float (F64.mul x (F64.of_float c))) = false.
Proof.
  intros Hx (s & m & e & Hc). rewrite Hc. apply to_float_not_nan.
  now apply SFmul_by_finite_not_nan.
Qed.

Lemma drag_factor_finite :
  exists s m e, F64.of_float (F32.of_ratio 3 10) = S754_finite s m e.
Proof. now eexists _, _, _. Qed.

Lemma scroll_factor_finite :
  exists s m e, F64.of_float (F32.of_Z 3) = S754_finite s m e.
Proof. now eexists _, _, _. Qed.

Lemma rotate_in_range (dy dp : float) (c : Camera.t) :
  F32.is_nan dp = false ->
  Camera.pitch_in_range c = true ->
  Camera.pitch_in_range (Camera.rotate dy dp c) = true.
Proof.
  intros Hdp Hp. apply rotate_pitch_between.
  apply add_finite_and_not_nan; [now apply pitch_in_range_finite | exact Hdp].
Qed.

Lemma zoom_in_range (d : float) (c : Camera.t) :
  F32.is_nan d = false ->
  Camera.distance_in_range c = true ->
  Camera.distance_in_range (Camera.zoom d c) = true.
Proof.
  intros Hd Hc. apply zoom_distance_between.
  apply add_finite_and_not_nan;
    [now apply distance_in_range_finite | exact Hd].
Qed.

Lemma handle_sound (st : State) (ev : event) :
  usable ev -> sound st -> sound (handle G L st ev).
Proof.
  intros Hev (Hp & Hd & Hrp & Hrd & Hx & Hy).
  destruct ev as [w h|cap b a|cap x y|cap xo yo|k a];
    cbn [handle usable] in *.
  - now repeat split.
  - unfold mouse_button_callback. destruct cap; [now repeat split|].
    destruct (b =? MOUSE_BUTTON_LEFT G), (b =? MOUSE_BUTTON_RIGHT G);
      now repeat split.
  - destruct Hev as [Hfx Hfy].
    unfold cursor_position_callback. destruct cap; [now repeat split|].
    destruct (first_mouse st); [now repeat split|].
    unfold sound, set_cursor.
    cbn [camera last_mouse_x last_mouse_y].
    assert (Hdy : F32.is_nan (F64.sub y (last_mouse_y st)) = false)
      by now apply SFsub_finite_not_nan.
    assert (Hrot : Camera.pitch_in_range
              (Camera.rotate
                 (F64.to_float
                    (F64.mul (F64.sub x (last_mouse_x st))
                       (F64.of_float (F32.of_ratio 3 10))))
                 (F64.to_float
                    (F64.mul (F64.opp (F64.sub y (last_mouse_y st)))
                       (F64.of_float (F32.of_ratio 3 10))))
                 (camera st)) = true).
    { apply rotate_in_range; [|exact Hp].
      apply scaled_not_nan;
        [now apply opp_not_nan | exact drag_factor_finite]. }
    destruct (left_mouse_down st), (right_mouse_down st);
      repeat split; assumption.
  - unfold scroll_callback. destruct cap; [now repeat split|].
    unfold sound, set_cursor. cbn [camera last_mouse_x last_mouse_y].
    repeat split; try assumption.
    apply zoom_in_range; [|exact Hd].
    apply scaled_not_nan; [now apply opp_not_nan | exact scroll_factor_finite].
  - unfold key_callback. destruct (a =? PRESS G); [|now repeat split].
    destruct (k =? KEY_SPACE G); [now repeat split|].
    destruct (k =? KEY_R G); [now repeat split|].
    destruct (k =? KEY_ESCAPE G); now repeat split.
Qed.

Lemma handle_same_settings (st : State) (ev : event) :
  Camera.same_settings (camera st) (camera (handle G L st ev)).
Proof.
  destruct ev as [w h|cap b a|cap x y|cap xo yo|k a]; cbn [handle].
  - now repeat split.
  - unfold mouse_button_callback. destruct cap; [now repeat split|].
    destruct (b =? MOUSE_BUTTON_LEFT G), (b =? MOUSE_BUTTON_RIGHT G);
      now repeat split.
  - unfold cursor_position_callback. destruct cap; [now repeat split|].
    destruct (first_mouse st); [now repeat split|].
    destruct (left_mouse_down st), (right_mouse_down st); now repeat split.
  - unfold scroll_callback. destruct cap; now repeat split.
  - unfold key_callback. destruct (a =? PRESS G); [|now repeat split].
    destruct (k =? KEY_SPACE G); [now repeat split|].
    destruct (k =? KEY_R G); [now repeat split|].
    destruct (k =? KEY_ESCAPE G); now repeat split.
Qed.

Lemma poll_same_settings (evs : list event) (st : State) :
  Camera.same_settings (camera st) (camera (poll G L evs st)).
Proof.
  unfold poll. revert st. induction evs as [|ev evs IH]; intro st.
  - now repeat split.
  - cbn [fold_left].
    destruct (IH (handle G L st ev)) as (H1 & H2 & H3 & H4 & H5 & H6 & H7).
    destruct (handle_same_settings st ev)
      as (A1 & A2 & A3 & A4 & A5 & A6 & A7).
    unfold Camera.same_settings. rewrite H1, H2, H3, H4, H5, H6, H7.
    repeat split; assumption.
Qed.

(** X15.  A drag never starts with a jump: after a press of the left or
    the right mouse button (outside the GUI), the next cursor event leaves
    the camera as it is, wherever the cursor is and whatever it did
    before; it only records the cursor position. *)
Theorem first_cursor_event_after_press_keeps_camera
    (button : Z) (capture : bool) (xpos ypos : double) (st : State) :
  button = MOUSE_BUTTON_LEFT G \/ button = MOUSE_BUTTON_RIGHT G ->
  let pressed := mouse_button_callback G false button (PRESS G) st in
  let moved := cursor_position_callback G L capture xpos ypos pressed in
  camera moved = camera st
  /\ (capture = false ->
      last_mouse_x moved = xpos /\ last_mouse_y moved = ypos
      /\ first_mouse moved = false).
Proof.
  intro Hb. cbv zeta.
  set (pressed := mouse_button_callback G false button (PRESS G) st).
  assert (Hfirst : first_mouse pressed = true /\ camera pressed = camera st).
  { unfold pressed, mouse_button_callback. rewrite Z.eqb_refl.
    destruct Hb as [-> | ->]; rewrite Z.eqb_refl;
      [destruct (MOUSE_BUTTON_LEFT G =? MOUSE_BUTTON_RIGHT G)
      |destruct (MOUSE_BUTTON_RIGHT G =? MOUSE_BUTTON_LEFT G)];
      now split. }
  destruct Hfirst as [Hf Hc].
  unfold cursor_position_callback. rewrite Hf.
  destruct capture; [split; [exact Hc | discriminate]|].
  split; [exact Hc | now repeat split].
Qed.

(** X16.  No usable input breaks the pose: from a sound state (pitch and
    distance of the pose and of the stored defaults in [-89, 89] and
    [5, 200], last cursor position finite), every sequence of window,
    mouse, scroll and key events with finite cursor coordinates and scroll
    offsets that are not NaN leaves the pitch in [-89, 89] and the distance
    in [5, 200]; the start-up state is sound. *)
Theorem events_keep_pitch_and_distance_in_range
    (evs : list event) (st : State) :
  sound g_state
  /\ (Forall usable evs -> sound st ->
      Camera.pitch_in_range (camera (poll G L evs st)) = true
      /\ Camera.distance_in_range (camera (poll G L evs st)) = true).
Proof.
  split; [now repeat split|].
  intros Hevs Hst.
  assert (H : sound (poll G L evs st)).
  { unfold poll. revert st Hst.
    induction Hevs as [|ev evs Hev _ IH]; intros st Hst; [exact Hst|].
    cbn [fold_left]. apply IH. now apply handle_sound. }
  destruct H as (Hp & Hd & _). now split.
Qed.

(** X17.  The R key is a full camera reset: after any sequence of events
    on a state whose camera the constructor made, a press of R leaves
    exactly the constructed camera (the case labels of the [switch] are
    distinct, so R is not the space bar). *)
Theorem key_R_restores_the_constructed_camera
    (dist yaw_deg pitch_deg : float) (evs : list event) (st : State) :
  KEY_R G <> KEY_SPACE G ->
  camera st = Camera.new dist yaw_deg pitch_deg ->
  camera (key_callback G (KEY_R G) (PRESS G) (poll G L evs st))
  = Camera.new dist yaw_deg pitch_deg.
Proof.
  intros Hkeys Hcam.
  destruct (poll_same_settings evs st) as (H1 & H2 & H3 & H4 & H5 & H6 & H7).
  unfold key_callback. rewrite !Z.eqb_refl.
  destruct (Z.eqb_spec (KEY_R G) (KEY_SPACE G)) as [E|_]; [contradiction|].
  unfold set_flags, Camera.reset, Camera.set_pose. cbn [camera].
  rewrite H1, H2, H3, H4, H5, H6, H7, Hcam. reflexivity.
Qed.

(** The running flag after the events: the first one, negated once for
    every press of the space bar. *)
Lemma poll_running (evs : list event) (st : State) :
  running (poll G L evs st)
  = if Nat.even (space_presses G evs) then running st
    else negb (running st).
Proof.
  unfold poll, space_presses. revert st.
  induction evs as [|ev evs IH]; intro st; [reflexivity|].
  cbn [fold_left filter]. rewrite IH.
  destruct ev as [w h|cap b a|cap x y|cap xo yo|k a]; cbn [handle].
  - reflexivity.
  - unfold mouse_button_callback. destruct cap; [reflexivity|].
    now destruct (b =? MOUSE_BUTTON_LEFT G), (b =? MOUSE_BUTTON_RIGHT G).
  - unfold cursor_position_callback. destruct cap; [reflexivity|].
    now destruct (first_mouse st).
  - unfold scroll_callback. now destruct cap.
  - unfold key_callback. destruct (a =? PRESS G); [|reflexivity].
    destruct (k =? KEY_SPACE G); cbn [andb length].
    + rewrite Nat.even_succ, <- Nat.negb_even. cbn [running set_flags].
      destruct (Nat.even _); [reflexivity | apply negb_involutive].
    + destruct (k =? KEY_R G); [reflexivity|].
      now destruct (k =? KEY_ESCAPE G).
Qed.


(** X18.  The simulation starts and stops by the space bar only: after any
    sequence of events the running flag is the first one, negated once for
    every press of the space bar; mouse, scroll and window events, other
    keys, and key releases and repeats do not touch it. *)
Theorem running_flips_with_space_presses (evs : list event) (st : State) :
  running (poll G L evs st)
  = if Nat.even (space_presses G evs) then running st
    else negb (running st).
Proof. apply poll_running. Qed.

(** X19.  Input reaches the simulation through the space bar only: the
    solver after a pass of the loop is the update of the solver before it
    under the settings as they are, with the running flag negated once for
    every press of the space bar among the events.  Mouse and scroll
    events and the other keys, R included, change nothing of the solver;
    so while the simulation is paused and the space bar is not pressed the
    solver stays as it is. *)
Theorem simulation_sees_input_through_space_only
    (evs : list event) (cfg : App.AppState) (st : State)
    (s : LorenzSolver.t) :
  snd (Main.frame G L evs cfg (st, s))
  = App.update
      (Main.settings cfg
         (if Nat.even (space_presses G evs) then running st
          else negb (running st)))
      s
  /\ (forall key : Z,
        key <> KEY_SPACE G -> running st = false ->
        snd (Main.frame G L [Key key (PRESS G)] cfg (st, s)) = s).
Proof.
  split.
  - unfold Main.frame. cbn [fst snd]. now rewrite poll_running.
  - intros key Hkey Hrun. unfold Main.frame. cbn [fst snd].
    rewrite poll_running. unfold space_presses. cbn [filter].
    rewrite Z.eqb_refl.
    destruct (Z.eqb_spec key (KEY_SPACE G)) as [E|_]; [contradiction|].
    cbn [andb length Nat.even]. now rewrite Hrun.
Qed.

End InputFacts.

Lemma first_cursor_event_after_press_keeps_camera_witness :
  let G := Input.glfw3 in
  let st := Input.poll G example_math example_events Input.g_state in
  let pressed := Input.mouse_button_callback G false 1 (Input.PRESS G) st in
  let moved :=
    Input.cursor_position_callback G example_math false
      (F64.of_Z 5) (F64.of_Z 7) pressed in
  (1 = Input.MOUSE_BUTTON_LEFT G \/ 1 = Input.MOUSE_BUTTON_RIGHT G)
  /\ Input.camera moved = Input.camera st.
Proof.
  cbv zeta.
  assert (H : 1 = Input.MOUSE_BUTTON_LEFT Input.glfw3
              \/ 1 = Input.MOUSE_BUTTON_RIGHT Input.glfw3)
    by (right; reflexivity).
  split; [exact H|].
  exact (proj1 (first_cursor_event_after_press_keeps_camera
                  Input.glfw3 example_math 1 false (F64.of_Z 5) (F64.of_Z 7)
                  (Input.poll Input.glfw3 example_math example_events
                     Input.g_state) H)).
Defined.

Lemma events_keep_pitch_and_distance_in_range_witness :
  let st := Input.poll Input.glfw3 example_math example_events
              Input.g_state in
  Forall Input.usable example_events
  /\ Input.sound Input.g_state
  /\ Camera.pitch_in_range (Input.camera st) = true
  /\ Camera.distance_in_range (Input.camera st) = true.
Proof.
  cbv zeta.
  assert (H : Forall Input.usable example_events)
    by (repeat constructor).
  assert (H0 : Input.sound Input.g_state) by (repeat split).
  split; [exact H|]. split; [exact H0|].
  exact (proj2 (events_keep_pitch_and_distance_in_range
                  Input.glfw3 example_math example_events Input.g_state)
               H H0).
Defined.

Lemma key_R_restores_the_constructed_camera_witness :
  let G := Input.glfw3 in
  Input.KEY_R G <> Input.KEY_SPACE G
  /\ Input.camera Input.g_state
     = Camera.new (F32.of_Z 60) (F32.of_Z 45) (F32.of_Z 20)
  /\ Input.camera
       (Input.key_callback G (Input.KEY_R G) (Input.PRESS G)
          (Input.poll G example_math example_events Input.g_state))
     = Camera.new (F32.of_Z 60) (F32.of_Z 45) (F32.of_Z 20).
Proof.
  cbv zeta.
  assert (H : Input.KEY_R Input.glfw3 <> Input.KEY_SPACE Input.glfw3)
    by discriminate.
  split; [exact H|]. split; [reflexivity|].
  exact (key_R_restores_the_constructed_camera Input.glfw3 example_math
           (F32.of_Z 60) (F32.of_Z 45) (F32.of_Z 20) example_events
           Input.g_state H eq_refl).
Defined.

Lemma simulation_sees_input_through_space_only_witness :
  let G := Input.glfw3 in
  Input.KEY_R G <> Input.KEY_SPACE G
  /\ Input.running Input.g_state = false
  /\ snd (Main.frame G example_math [Input.Key (Input.KEY_R G) (Input.PRESS G)]
            App.g_running (Input.g_state, App.solver0))
     = App.solver0.
Proof.
  cbv zeta.
  assert (H : Input.KEY_R Input.glfw3 <> Input.KEY_SPACE Input.glfw3)
    by discriminate.
  split; [exact H|]. split; [reflexivity|].
  exact (proj2 (simulation_sees_input_through_space_only
                  Input.glfw3 example_math [] App.g_running Input.g_state
                  App.solver0)
               (Input.KEY_R Input.glfw3) H eq_refl).
Defined.
